(** * AiiDA: archive import dispatch, ORM collections and the profile command

    A shallow embedding of the Python sources

    - [aiida/tools/importexport/dbimport/main.py]   ([import_data]),
    - [aiida/orm/implementation/logs.py]            ([BackendLogCollection]),
    - [aiida/orm/implementation/django/users.py]    ([DjangoUser], [DjangoUserCollection]),
    - [aiida/cmdline/commands/profile.py]           ([Profile]),

    together with the properties stated about them.  Python functions that
    may raise return an [outcome]; functions that touch the database, the
    configuration file or the terminal thread the state they touch. *)

From Stdlib Require Import Ascii.
From stdpp Require Import base option list gmap strings fin_maps pretty.

Set Warnings "-clear-no-such-hyp".


(** ** Python outcomes *)

(** The exception classes the modelled code raises.  [SystemExit] is what
    [sys.exit(code)] raises, [Abort] what [click.confirm] raises when it
    gets no answer. *)
Inductive exn : Type :=
| ArchiveImportError (msg : string)
| ValidationError (msg : string)
| TypeError (msg : string)
| ValueError (msg : string)
| NotExistent (msg : string)
| Abort
| SystemExit (code : Z).

Inductive outcome (A : Type) : Type :=
| Return (a : A)
| Raise (e : exn).
Arguments Return {A} a.
Arguments Raise {A} e.

Definition is_ArchiveImportError (e : exn) : bool :=
  match e with ArchiveImportError _ => true | _ => false end.

Definition is_ValidationError (e : exn) : bool :=
  match e with ValidationError _ => true | _ => false end.

Definition raises {A} (p : exn → bool) (o : outcome A) : bool :=
  match o with Return _ => false | Raise e => p e end.

(** ** [aiida/tools/importexport/dbimport/main.py] *)

Module Dispatch.

Section import_data.
(** The group object, the keyword options, the summary dictionary the
    importers return, and the database the importers work on are not
    inspected by the dispatcher. *)
Context {Group Kwargs Summary Store : Type}.

(** [aiida.backends.BACKEND_DJANGO] and [aiida.backends.BACKEND_SQLA]. *)
Variables BACKEND_DJANGO BACKEND_SQLA : string.

(** The backend-specific importers of
    [aiida.tools.importexport.dbimport.backends]: they receive
    [in_path], [group] and the keyword options, work on the store, and
    return the summary or raise. *)
Definition importer : Type :=
  string → option Group → Kwargs → Store → outcome Summary * Store.
Variables import_data_sqla import_data_dj : importer.

(** What a call leaves behind: the records sent to [IMPORT_LOGGER] and
    the store. *)
Record effects : Type := Effects { logged : list string; store : Store }.

Definition debug_msg (name backend : string) : string :=
  "Calling import function " +:+ name +:+ " for the " +:+ backend +:+ " backend.".

(** [import_data(in_path, group=None, **kwargs)], with
    [backend = configuration.PROFILE.database_backend]. *)
Definition import_data (backend : string) (in_path : string)
    (group : option Group) (kwargs : Kwargs) (db : Store)
  : outcome Summary * effects :=
  if bool_decide (backend = BACKEND_SQLA) then
    let '(r, db') := import_data_sqla in_path group kwargs db in
    (r, Effects [debug_msg "import_data_sqla" backend] db')
  else if bool_decide (backend = BACKEND_DJANGO) then
    let '(r, db') := import_data_dj in_path group kwargs db in
    (r, Effects [debug_msg "import_data_dj" backend] db')
  else
    (Raise (ArchiveImportError ("Unknown backend: " +:+ backend)),
     Effects [] db).
End import_data.

End Dispatch.

(** ** Values stored in attributes and extras *)

(** The JSON scalars a node carries in its attributes and extras.  The
    floats of the tests ([orm.Float(i)] for [i] in [range(5)]) hold whole
    numbers and are written [VInt]. *)
Inductive value : Type :=
| VNull
| VBool (b : bool)
| VInt (z : Z)
| VStr (s : string).

#[global] Instance value_eq_dec : EqDecision value.
Proof. solve_decision. Defined.

(** ** The extras conflict resolver *)

Module Extras.

(** The three letters of [extras_mode_existing], as the docstring of
    [import_data] lists them. *)
Inductive old_only : Type := Keep | Drop.                     (* 'k' | 'n' *)
Inductive new_only : Type := Create | Ignore.                 (* 'c' | 'n' *)
Inductive collision : Type := Leave | Update | Remove | Ask.  (* 'l' | 'u' | 'd' | 'a' *)

Record policy : Type :=
  Policy { on_old_only : old_only; on_new_only : new_only; on_collision : collision }.

Definition parse_old_only (c : ascii) : option old_only :=
  if bool_decide (c = "k"%char) then Some Keep
  else if bool_decide (c = "n"%char) then Some Drop else None.

Definition parse_new_only (c : ascii) : option new_only :=
  if bool_decide (c = "c"%char) then Some Create
  else if bool_decide (c = "n"%char) then Some Ignore else None.

Definition parse_collision (c : ascii) : option collision :=
  if bool_decide (c = "l"%char) then Some Leave
  else if bool_decide (c = "u"%char) then Some Update
  else if bool_decide (c = "d"%char) then Some Remove
  else if bool_decide (c = "a"%char) then Some Ask else None.

(** A policy code is three letters, one per position. *)
Definition parse_mode (code : string) : option policy :=
  match code with
  | String a (String b (String c EmptyString)) =>
      o ← parse_old_only a; n ← parse_new_only b; x ← parse_collision c;
      Some (Policy o n x)
  | _ => None
  end.

(** What the resolver decides for one key. *)
Inductive action : Type := KeepExisting | TakeIncoming | DeleteExtra | PromptUser.

#[global] Instance action_eq_dec : EqDecision action.
Proof. solve_decision. Defined.

(** Modelled from the spec: the extras merge of
    [aiida.tools.importexport.dbimport.utils], which is not among the
    sources.  The first letter decides a key only the existing node has,
    the second a key only the incoming record has, the third a key both
    have with differing values; a key both have with the same value stays
    as it is.  [None] is returned for a key neither side has. *)
Definition extras_action (p : policy) (old new : option value) : option action :=
  match old, new with
  | None, None => None
  | Some _, None =>
      Some (match on_old_only p with Keep => KeepExisting | Drop => DeleteExtra end)
  | None, Some _ =>
      Some (match on_new_only p with Create => TakeIncoming | Ignore => KeepExisting end)
  | Some a, Some b =>
      if bool_decide (a = b) then Some KeepExisting
      else Some (match on_collision p with
                 | Leave => KeepExisting
                 | Update => TakeIncoming
                 | Remove => DeleteExtra
                 | Ask => PromptUser
                 end)
  end.

(** The spec's table of cases, as a relation: [decides p old new a] when
    the (presence, presence, equal?) case of [old] and [new] is mapped to
    [a] under [p]. *)
Inductive decides (p : policy) : option value → option value → action → Prop :=
| d_old_keep a : on_old_only p = Keep → decides p (Some a) None KeepExisting
| d_old_drop a : on_old_only p = Drop → decides p (Some a) None DeleteExtra
| d_new_create b : on_new_only p = Create → decides p None (Some b) TakeIncoming
| d_new_ignore b : on_new_only p = Ignore → decides p None (Some b) KeepExisting
| d_same a : decides p (Some a) (Some a) KeepExisting
| d_leave a b : a ≠ b → on_collision p = Leave → decides p (Some a) (Some b) KeepExisting
| d_update a b : a ≠ b → on_collision p = Update → decides p (Some a) (Some b) TakeIncoming
| d_remove a b : a ≠ b → on_collision p = Remove → decides p (Some a) (Some b) DeleteExtra
| d_ask a b : a ≠ b → on_collision p = Ask → decides p (Some a) (Some b) PromptUser.

(** An entry of the merged mapping: a settled value, or the two candidates
    of a collision the user is to be asked about. *)
Inductive slot : Type :=
| Settled (v : value)
| Pending (old new : value).

#[global] Instance slot_eq_dec : EqDecision slot.
Proof. solve_decision. Defined.

Definition apply_action (a : action) (old new : option value) : option slot :=
  match a with
  | KeepExisting => Settled <$> old
  | TakeIncoming => Settled <$> new
  | DeleteExtra => None
  | PromptUser =>
      match old, new with
      | Some a, Some b => Some (Pending a b)
      | _, _ => None
      end
  end.

Definition merge_key (p : policy) (old new : option value) : option slot :=
  a ← extras_action p old new; apply_action a old new.

(** The merged mapping of the extras [old] of the existing node and the
    extras [new] of the incoming record. *)
Definition merge_extras (p : policy) (old new : gmap string value) : gmap string slot :=
  merge (merge_key p) old new.

(** The same merge, one key after the other in the order of [keys]. *)
Definition merge_extras_seq (p : policy) (old new : gmap string value)
    (keys : list string) : gmap string slot :=
  foldr (λ k acc,
           match merge_key p (old !! k) (new !! k) with
           | Some s => <[k:=s]> acc
           | None => acc
           end) ∅ keys.

(** The resolver on a policy code: a code that is not three valid letters
    is refused. *)
Definition merge_extras_code (code : string) (old new : gmap string value)
  : outcome (gmap string slot) :=
  match parse_mode code with
  | Some p => Return (merge_extras p old new)
  | None => Raise (ValidationError ("invalid extras mode: " +:+ code))
  end.

(** Settling the pending entries with the user's answers: [confirm k a b]
    is the answer to "replace [a] by [b] for key [k]?". *)
Definition settle (confirm : string → value → value → bool)
    (m : gmap string slot) : gmap string value :=
  map_imap (λ k s, Some (match s with
                         | Settled v => v
                         | Pending a b => if confirm k a b then b else a
                         end)) m.

End Extras.

(** ** Comments *)

Module Comments.

Record comment : Type :=
  Comment { c_uuid : string; c_node : string; mtime : Z; content : string }.

Inductive comment_mode : Type := Newest | Overwrite.

Definition parse_comment_mode (s : string) : option comment_mode :=
  if bool_decide (s = "newest") then Some Newest
  else if bool_decide (s = "overwrite") then Some Overwrite else None.

(** Modelled from the spec: the comment merge of the backend importers,
    which are not among the sources.  [existing] and [incoming] have the
    same UUID. *)
Definition merge_comment (mode : comment_mode) (existing incoming : comment) : comment :=
  match mode with
  | Newest => if bool_decide (mtime existing < mtime incoming)%Z then incoming else existing
  | Overwrite => incoming
  end.

Definition find_comment (u : string) (dest : list comment) : option comment :=
  List.find (λ c, bool_decide (c_uuid c = u)) dest.

(** Importing one comment: an existing comment with its UUID is merged,
    a new one is appended. *)
Fixpoint import_comment (mode : comment_mode) (dest : list comment) (incoming : comment)
  : list comment :=
  match dest with
  | [] => [incoming]
  | c :: dest' =>
      if bool_decide (c_uuid c = c_uuid incoming)
      then merge_comment mode c incoming :: dest'
      else c :: import_comment mode dest' incoming
  end.

Definition import_comments (mode : comment_mode) (dest incoming : list comment)
  : list comment :=
  foldl (import_comment mode) dest incoming.

End Comments.

(** ** Archives: export and import of nodes *)

Module Archive.

(** A node, as the archive carries it: the UUID is its portable identity,
    the primary key is local to a database and is its position there. *)
Record node : Type :=
  Node { uuid : string; node_type : string;
         attributes : gmap string value; extras : gmap string value }.

(** A link between two nodes, given by their UUIDs. *)
Record link : Type :=
  Link { source : string; target : string; link_type : string; label : string }.

#[global] Instance link_eq_dec : EqDecision link.
Proof. solve_decision. Defined.

Record bundle : Type :=
  Bundle { b_nodes : list node; b_links : list link; b_comments : list Comments.comment }.

Record database : Type :=
  Database { nodes : list node; links : list link; comments : list Comments.comment }.

Definition fresh : database := Database [] [] [].

(** The summary [import_data] returns: the UUIDs of the nodes it created
    and of those it found. *)
Record summary : Type := Summary { created : list string; existing : list string }.

Inductive extras_new : Type := ImportExtras | NoExtras.   (* 'import' | 'none' *)

Record options : Type :=
  Options { extras_mode_existing : Extras.policy;
            extras_mode_new : extras_new;
            comment_mode : Comments.comment_mode }.

Definition uuids (ns : list node) : list string := uuid <$> ns.

Definition has_uuid (u : string) (ns : list node) : bool := bool_decide (u ∈ uuids ns).

Definition lookup_node (u : string) (ns : list node) : option node :=
  List.find (λ n, bool_decide (uuid n = u)) ns.

Section import.
Variable opts : options.
(** The answers of the user to the prompts of collision mode 'a'. *)
Variable confirm : string → value → value → bool.

(** An existing node takes the merged extras of an incoming record with
    its UUID and is otherwise left as it is. *)
Definition merge_into (incoming n : node) : node :=
  if bool_decide (uuid n = uuid incoming) then
    Node (uuid n) (node_type n) (attributes n)
         (Extras.settle confirm
            (Extras.merge_extras (extras_mode_existing opts) (extras n) (extras incoming)))
  else n.

(** A new node is created with or without the extras of the record. *)
Definition new_node (incoming : node) : node :=
  Node (uuid incoming) (node_type incoming) (attributes incoming)
       (match extras_mode_new opts with
        | ImportExtras => extras incoming
        | NoExtras => ∅
        end).

(** Modelled from the spec: the node import of the backend importers
    ([import_data_sqla], [import_data_dj]), which are not among the
    sources.  A record whose UUID is in the store is reported as
    existing and creates nothing; any other record creates a node. *)
Definition import_node (acc : list node * summary) (incoming : node)
  : list node * summary :=
  let '(ns, s) := acc in
  if has_uuid (uuid incoming) ns
  then (merge_into incoming <$> ns,
        Summary (created s) (existing s ++ [uuid incoming]))
  else (ns ++ [new_node incoming],
        Summary (created s ++ [uuid incoming]) (existing s)).

Definition import_nodes (ns : list node) (incoming : list node)
  : list node * summary :=
  foldl import_node (ns, Summary [] []) incoming.

Definition import_links (ls incoming : list link) : list link :=
  foldl (λ acc l, if bool_decide (l ∈ acc) then acc else acc ++ [l]) ls incoming.

(** One [import_data] call on an opened archive. *)
Definition import_bundle (db : database) (b : bundle) : database * summary :=
  let '(ns, s) := import_nodes (nodes db) (b_nodes b) in
  (Database ns
     (import_links (links db) (b_links b))
     (Comments.import_comments (comment_mode opts) (comments db) (b_comments b)),
   s).
End import.

Section export.
(** The traversal rules of the export: from the database and the
    selected UUIDs, the UUIDs that are exported. *)
Variable traverse : database → list string → list string.

(** Modelled from the spec: [export] of
    [aiida.tools.importexport.dbexport.main], which is not among the
    sources.  The archive holds the nodes the traversal reaches, the
    links between them and their comments. *)
Definition export (db : database) (selection : list string) : bundle :=
  let keep := traverse db selection in
  Bundle (filter (λ n, uuid n ∈ keep) (nodes db))
         (filter (λ l, source l ∈ keep ∧ target l ∈ keep) (links db))
         (filter (λ c, Comments.c_node c ∈ keep) (comments db)).
End export.

(** The traversal of the test: the selected nodes and everything they
    descend from ([return_backward=True]). *)
Definition parents (ls : list link) (us : list string) : list string :=
  source <$> filter (λ l, target l ∈ us) ls.

Fixpoint ancestors (fuel : nat) (ls : list link) (us : list string) : list string :=
  match fuel with
  | O => us
  | S fuel' => ancestors fuel' ls (list_union us (parents ls us))
  end.

Definition return_backward (db : database) (selection : list string) : list string :=
  ancestors (length (nodes db)) (links db) selection.

End Archive.

(** ** [aiida/orm/implementation/logs.py] *)

Module Logs.

(** A row of the log table: the primary key and the properties
    [BackendLog] declares. *)
Record log : Type :=
  Log { pk : Z; uuid : string; time : Z; loggername : string; levelname : string;
        dbnode_id : Z; message : string; metadata : gmap string value }.

Section collection.
(** A condition of a [QueryBuilder] filter, and whether a row satisfies
    the filter dictionary; both belong to the query builder. *)
Context {Cond : Type}.
Variable matches : gmap string Cond → log → bool.

(** The [filters] argument as Python passes it: a dictionary or
    something else. *)
Inductive filters_arg : Type :=
| FDict (d : gmap string Cond)
| FOther.

(** Modelled from the spec: [delete(log_id)], which
    [BackendLogCollection] declares abstract: the row with that id is
    removed, [NotExistent] is raised if there is none. *)
Definition delete (log_id : Z) (logs : list log) : outcome unit * list log :=
  if bool_decide (log_id ∈ pk <$> logs)
  then (Return (), filter (λ l, pk l ≠ log_id) logs)
  else (Raise (NotExistent "Log not found"), logs).

Fixpoint delete_each (ids : list Z) (logs : list log) : outcome unit * list log :=
  match ids with
  | [] => (Return (), logs)
  | i :: ids' =>
      match delete i logs with
      | (Return _, logs') => delete_each ids' logs'
      | (Raise e, logs') => (Raise e, logs')
      end
  end.

(** Modelled from the spec: [delete_many(filters)], which
    [BackendLogCollection] declares abstract with the contract of its
    docstring; the backend implementations are not among the sources.
    The filter is checked first, then the ids of the matching rows are
    queried and the rows deleted one by one. *)
Definition delete_many (filters : filters_arg) (logs : list log)
  : outcome (list Z) * list log :=
  match filters with
  | FOther => (Raise (TypeError "filters must be a dictionary"), logs)
  | FDict d =>
      if bool_decide (d = ∅)
      then (Raise (ValidationError "filters must not be empty"), logs)
      else
        let entities_to_delete := pk <$> filter (λ l, matches d l) logs in
        match delete_each entities_to_delete logs with
        | (Return _, logs') => (Return entities_to_delete, logs')
        | (Raise e, logs') => (Raise e, logs')
        end
  end.
End collection.

End Logs.

(** ** [aiida/orm/implementation/django/users.py] *)

Module Users.

(** A [DbUser] model instance: the primary key, which is [None] as long
    as the instance has not been saved, and the four fields
    [DjangoUser.__init__] sets. *)
Record DbUser : Type :=
  mkDbUser { id : option Z; email : string; first_name : string;
             last_name : string; institution : string }.

Section users.
Context {Backend : Type}.

(** [DjangoUser]: the backend and the wrapped model instance. *)
Record DjangoUser : Type := mkDjangoUser { backend : Backend; dbmodel : DbUser }.

(** [DjangoUser.__init__]: a model instance is built from the four
    fields; building one does not touch the table. *)
Definition DjangoUser_init (b : Backend) (email first_name last_name institution : string)
  : DjangoUser :=
  mkDjangoUser b (mkDbUser None email first_name last_name institution).

(** [from_dbmodel] of the entity base class, which builds the user
    object for a row read from the table. *)
Variable from_dbmodel : Backend → DbUser → DjangoUser.

(** [DjangoUserCollection.create]; [first_name], [last_name] and
    [institution] are [''] when the caller leaves them out.  The second
    component is the user table after the call. *)
Definition create (self : Backend) (email first_name last_name institution : string)
    (table : list DbUser) : DjangoUser * list DbUser :=
  (DjangoUser_init self email first_name last_name institution, table).

(** Django's [Q] objects, as far as [find] builds them. *)
Inductive Q : Type :=
| Q_pk (pk : Z)
| Q_email (email : string)
| Q_and (q1 q2 : Q).

Fixpoint Q_holds (q : Q) (row : DbUser) : bool :=
  match q with
  | Q_pk pk => bool_decide (id row = Some pk)
  | Q_email e => bool_decide (email row = e)
  | Q_and q1 q2 => Q_holds q1 row && Q_holds q2 row
  end.

(** [functools.reduce(function, sequence)] on a sequence that is not
    empty. *)
Definition reduce {A} (f : A → A → A) (x : A) (xs : list A) : A := foldl f x xs.

(** [DjangoUserCollection.find(email=None, id=None)]; rows come in the
    order of the table. *)
Definition find (self : Backend) (email : option string) (id : option Z)
    (table : list DbUser) : list DjangoUser * list DbUser :=
  let query_list := [] in
  let query_list :=
    match id with Some i => query_list ++ [Q_pk i] | None => query_list end in
  let query_list :=
    match email with Some e => query_list ++ [Q_email e] | None => query_list end in
  let dbusers :=
    match query_list with
    | [] => table
    | q :: qs => filter (λ row, Q_holds (reduce Q_and q qs) row) table
    end in
  (from_dbmodel self <$> dbusers, table).
End users.

Arguments DjangoUser : clear implicits.

End Users.

(** ** [aiida/cmdline/commands/profile.py] *)

Module Profile.

Definition valid_processes : list string := ["verdi"; "daemon"].

(** The configuration file: the profile registry (profile name to
    connection parameters) and the default profile of each process. *)
Record config : Type :=
  Config { profiles : gmap string (gmap string string);
           default_profiles : gmap string string }.

(** What the commands read and change: the persisted configuration, the
    databases and database users of the PostgreSQL server, the two output
    streams (one entry per printed line), and the answers the user will
    give to [click.confirm]. *)
Record world : Type :=
  World { persisted : config;
          databases : gset string;
          dbusers : gset string;
          stdout : list string;
          stderr : list string;
          answers : list bool }.

Definition print (line : string) (w : world) : world :=
  World (persisted w) (databases w) (dbusers w) (stdout w ++ [line]) (stderr w) (answers w).

Definition eprint (line : string) (w : world) : world :=
  World (persisted w) (databases w) (dbusers w) (stdout w) (stderr w ++ [line]) (answers w).

(** [click.confirm(text)]: shows the text and reads the next answer;
    [Abort] when there is none. *)
Definition confirm (text : string) (w : world) : outcome bool * world :=
  match answers w with
  | [] => (Raise Abort, print text w)
  | a :: rest =>
      (Return a,
       World (persisted w) (databases w) (dbusers w) (stdout w ++ [text]) (stderr w) rest)
  end.

(** Modelled from the spec: [update_config(confs)] of
    [aiida.common.setup], which is not among the sources: writes the
    configuration. *)
Definition update_config (confs : config) (w : world) : world :=
  World confs (databases w) (dbusers w) (stdout w) (stderr w) (answers w).

(** Modelled from the spec: [Quicksetup._drop_db] and
    [Quicksetup._drop_dbuser] of [aiida.cmdline.verdilib], which are not
    among the sources: the database, or the database user, is dropped. *)
Definition drop_db (db : string) (w : world) : world :=
  World (persisted w) (databases w ∖ {[db]}) (dbusers w) (stdout w) (stderr w) (answers w).

Definition drop_dbuser (user : string) (w : world) : world :=
  World (persisted w) (databases w) (dbusers w ∖ {[user]}) (stdout w) (stderr w) (answers w).

(** Modelled from the spec: [get_profiles_list()] of
    [aiida.common.setup], which is not among the sources: the names in the
    profile registry, the keys of a dictionary. *)
Definition get_profiles_list (w : world) : list string :=
  (map_to_list (profiles (persisted w))).*1.

(** Modelled from the spec: [get_default_profile(process)] of
    [aiida.common.setup], which is not among the sources: the default
    profile of the process, [None] when none is configured. *)
Definition get_default_profile (process : string) (w : world) : option string :=
  default_profiles (persisted w) !! process.

(** The part of the state a misuse must leave alone. *)
Definition durable (w : world) : config * gset string * gset string :=
  (persisted w, databases w, dbusers w).

Definition dq : string := String "034"%char "".
Definition esc : string := String "027"%char "".

(** [", ".join("'{}'".format(pr) for pr in valid_processes)] *)
Definition valid_processes_strlist : string :=
  String.concat ", " ((λ pr, "'" +:+ pr +:+ "'") <$> valid_processes).

Section setdefault.
(** [aiida.common.setup.set_default_profile(process, profile, force_rewrite)] *)
Variable set_default_profile : string → string → bool → world → outcome unit * world.

(** [Profile.profile_setdefault] *)
Definition profile_setdefault (args : list string) (w : world) : outcome unit * world :=
  if bool_decide (length args ≠ 2) then
    let w := eprint ("You have to pass (only) two parameters " +:+
                     "after 'profile setdefault', the name of") w in
    let w := eprint ("the process (" +:+ valid_processes_strlist +:+ ") and the " +:+
                     "profile to be set as the default.") w in
    (Raise (SystemExit 1), w)
  else
    let process := nth 0 args "" in
    if bool_decide (process ∉ valid_processes) then
      let w := eprint ("'" +:+ process +:+ "' is not a valid process. Choose it from " +:+
                       "the following list: " +:+ valid_processes_strlist +:+ ".") w in
      (Raise (SystemExit 1), w)
    else
      let profile := nth 1 args "" in
      set_default_profile process profile true w.
End setdefault.

(** One line of the listing, before it is formatted. *)
Record row : Type :=
  Row { symbol : string; color_id : nat; name : string; default_str : string }.

(** The body of the loop of [profile_list] for one profile. *)
Definition list_row (current_profile default_profile default_daemon_profile : option string)
    (profile : string) : row :=
  let color_id := 39 in
  let '(symbol, color_id) :=
    if bool_decide (Some profile = current_profile) then (">", 31) else ("*", color_id) in
  let '(color_id, default_str) :=
    if bool_decide (Some profile = default_profile)
    then (34, " (DEFAULT)") else (color_id, "") in
  let default_str :=
    if bool_decide (Some profile = default_daemon_profile)
    then default_str +:+ " (DAEMON PROFILE)" else default_str in
  Row symbol color_id profile default_str.

Definition render (use_colors : bool) (r : row) : string :=
  let start_color := if use_colors then esc +:+ "[" +:+ pretty (color_id r) +:+ "m" else "" in
  let end_color := if use_colors then esc +:+ "[0m" else "" in
  let bold_sequence := if use_colors then esc +:+ "[1;" +:+ pretty (color_id r) +:+ "m" else "" in
  let nobold_sequence := if use_colors then esc +:+ "[0;" +:+ pretty (color_id r) +:+ "m" else "" in
  start_color +:+ symbol r +:+ " " +:+ bold_sequence +:+ name r +:+ default_str r +:+ " "
    +:+ nobold_sequence +:+ end_color.

(** Whether [x] names a profile of the registry. *)
Definition registered (x : option string) (w : world) : bool :=
  match x with
  | Some p => bool_decide (p ∈ get_profiles_list w)
  | None => false
  end.

(** How a printed row marks its profile: with the symbol [>] as the
    current one, with [(DEFAULT)] as the default of the running process,
    with [(DAEMON PROFILE)] as the default of the daemon. *)
Definition marked_current (r : row) : Prop := symbol r = ">".

Definition marked_default (r : row) : Prop :=
  default_str r = " (DEFAULT)" ∨ default_str r = " (DEFAULT) (DAEMON PROFILE)".

Definition marked_daemon (r : row) : Prop :=
  default_str r = " (DAEMON PROFILE)" ∨ default_str r = " (DEFAULT) (DAEMON PROFILE)".

#[global] Instance marked_current_dec r : Decision (marked_current r).
Proof. unfold marked_current. apply _. Defined.
#[global] Instance marked_default_dec r : Decision (marked_default r).
Proof. unfold marked_default. apply _. Defined.
#[global] Instance marked_daemon_dec r : Decision (marked_daemon r).
Proof. unfold marked_daemon. apply _. Defined.

(** The current profile of [profile_list]: [settings.AIIDADB_PROFILE], or
    the default profile of the running process when that is [None]. *)
Definition current_of (AIIDADB_PROFILE : option string) (CURRENT_AIIDADB_PROCESS : string)
    (w : world) : option string :=
  match AIIDADB_PROFILE with
  | Some p => Some p
  | None => get_default_profile CURRENT_AIIDADB_PROCESS w
  end.

(** The rows [profile_list] prints, one per profile of the registry. *)
Definition list_rows (AIIDADB_PROFILE : option string) (CURRENT_AIIDADB_PROCESS : string)
    (w : world) : list row :=
  list_row (current_of AIIDADB_PROFILE CURRENT_AIIDADB_PROCESS w)
           (get_default_profile CURRENT_AIIDADB_PROCESS w)
           (get_default_profile "daemon" w)
    <$> get_profiles_list w.

(** The check of the arguments of [profile_list]: [Some use_colors], or
    [None] where the code raises and catches [ValueError]. *)
Definition list_args (args : list string) : option bool :=
  match args with
  | [] => Some false
  | _ =>
      if bool_decide (length args ≠ 1) then None
      else if bool_decide (nth 0 args "" ≠ "--color") then None
      else Some true
  end.

(** [Profile.profile_list], with the two values it reads from
    [aiida.backends.settings]. *)
Definition profile_list (AIIDADB_PROFILE : option string) (CURRENT_AIIDADB_PROCESS : string)
    (args : list string) (w : world) : outcome unit * world :=
  let current_profile := current_of AIIDADB_PROFILE CURRENT_AIIDADB_PROCESS w in
  match list_args args with
  | None =>
      (Raise (SystemExit 1),
       eprint ("You can pass only one further argument, " +:+
               "--color, to show the results with colors") w)
  | Some use_colors =>
      let w' :=
        match current_profile with
        | Some _ => w
        | None => eprint ("### No default profile configured yet, " +:+
                          "run 'verdi install'! ###") w
        end in
      (Return (),
       foldl (λ acc r, print (render use_colors r) acc) w'
             (list_rows AIIDADB_PROFILE CURRENT_AIIDADB_PROCESS w))
  end.

(** The loop of [profile_delete] over [profiles_to_delete]; [confs] is the
    configuration dictionary the loop deletes from and writes back. *)
Fixpoint delete_profiles (confs : config) (profiles_to_delete : list string) (w : world)
  : outcome unit * world :=
  match profiles_to_delete with
  | [] => (Return (), w)
  | profile_to_delete :: rest =>
      match profiles confs !! profile_to_delete with
      | None =>
          (Raise (ValueError ("Profile " +:+ dq +:+ profile_to_delete +:+ dq +:+
                              " does not exist")), w)
      | Some profile =>
          let db := default "" (profile !! "AIIDADB_NAME") in
          match confirm ("Delete associated database " +:+ db +:+
                         "?" +:+ String "010"%char "" +:+ "WARNING: All data will be lost.") w with
          | (Raise e, w) => (Raise e, w)
          | (Return yes, w) =>
              let w := if yes then drop_db db (print ("Deleting database " +:+ db +:+ ".") w)
                       else w in
              let user := default "" (profile !! "AIIDADB_USER") in
              match confirm ("Delete database user " +:+ user +:+ "?") w with
              | (Raise e, w) => (Raise e, w)
              | (Return yes, w) =>
                  let w := if yes then drop_dbuser user (print ("Deleting user " +:+ user +:+ ".") w)
                           else w in
                  let w := print ("Deleting configuration for profile " +:+
                                  profile_to_delete +:+ ".") w in
                  let confs := Config (delete profile_to_delete (profiles confs))
                                      (default_profiles confs) in
                  let w := update_config confs w in
                  delete_profiles confs rest w
              end
          end
      end
  end.

(** [Profile.profile_delete]; the access to the PostgreSQL server
    that [Quicksetup._get_pg_access] sets up is the [databases] and
    [dbusers] of the world. *)
Definition profile_delete (args : list string) (w : world) : outcome unit * world :=
  let confs := persisted w in
  delete_profiles confs args w.

(** [Profile.complete_processes_profiles(subargs_idx, subargs)]: the
    candidates of the shell completion, one per line. *)
Definition complete_processes_profiles (subargs_idx : Z) (subargs : list string)
    (w : world) : string :=
  if bool_decide (subargs_idx = 1%Z) then
    String.concat (String "010"%char "") (get_profiles_list w)
  else if bool_decide (subargs_idx = 0%Z) then
    String.concat (String "010"%char "") valid_processes
  else "".

End Profile.

(** ** [tests/cmdline/params/options/test_interactive.py]: the callbacks *)

Module Interactive.

Section callbacks.
(** Python floats are kept abstract: the test [value < 0] and the text
    [str(value)] of a float are what the callbacks need of them. *)
Context {Float : Type}.
Variable float_lt_zero : Float → bool.
Variable float_str : Float → string.

(** The values a callback can be handed. *)
Inductive pyvalue : Type :=
| PyNone
| PyBool (b : bool)
| PyInt (z : Z)
| PyFloat (f : Float)
| PyStr (s : string).

(** [isinstance(value, (int, float))]; [bool] is a subclass of [int]. *)
Definition is_int_or_float (value : pyvalue) : bool :=
  match value with
  | PyBool _ | PyInt _ | PyFloat _ => true
  | PyNone | PyStr _ => false
  end.

(** [value < 0] on a number ([False] is 0 and [True] is 1). *)
Definition lt_zero (value : pyvalue) : bool :=
  match value with
  | PyBool _ => false
  | PyInt z => bool_decide (z < 0)%Z
  | PyFloat f => float_lt_zero f
  | PyNone | PyStr _ => false
  end.

(** [f'{value}'] *)
Definition format_value (value : pyvalue) : string :=
  match value with
  | PyNone => "None"
  | PyBool true => "True"
  | PyBool false => "False"
  | PyInt z => pretty z
  | PyFloat f => float_str f
  | PyStr s => s
  end.

(** What a callback does: it returns, or raises [click.BadParameter]. *)
Inductive verdict : Type :=
| Accepted
| BadParameter (msg : string).

(** [validate_positive_number(ctx, param, value)] *)
Definition validate_positive_number (value : pyvalue) : verdict :=
  if negb (is_int_or_float value) || lt_zero value
  then BadParameter (format_value value +:+ " is not a valid positive number")
  else Accepted.

(** [validate_positive_number_with_echo(ctx, param, value)]; the second
    component is the terminal output after the call. *)
Definition validate_positive_number_with_echo (value : pyvalue) (out : list string)
  : verdict * list string :=
  let out := out ++ ["Validating " +:+ format_value value] in
  if negb (is_int_or_float value) || lt_zero value
  then (BadParameter (format_value value +:+ " is not a valid positive number"), out)
  else (Accepted, out).
End callbacks.

Arguments pyvalue : clear implicits.

End Interactive.

(** * Sample data

    The inputs the examples below are run on. *)

Module Samples.
Import Dispatch Archive Logs Profile.

(** An importer that finds its archive corrupt. *)
Definition corrupt_archive : @importer unit unit unit unit :=
  λ _ _ _ db, (Raise (ArchiveImportError "corrupt archive"), db).

(** The database of [test_calcfunction]: five numbers, the calculation
    [add] with inputs [a] and [e] (the maximum of [b] to [e]), and its
    result. *)
Definition number (u : string) (v : Z) : node :=
  Node u "data.float.Float." {["value" := VInt v]} ∅.

Definition calcfunction_db : database :=
  Database
    [number "a" 0; number "b" 1; number "c" 2; number "d" 3; number "e" 4;
     Node "add" "process.calculation.calcfunction.CalcFunctionNode." ∅ ∅;
     number "res" 4]
    [Link "a" "add" "input_calc" "a"; Link "e" "add" "input_calc" "b";
     Link "add" "res" "create" "res"]
    [].

Definition default_options : options :=
  Options (Extras.Policy Extras.Keep Extras.Create Extras.Leave) ImportExtras Comments.Newest.

(** A filter on the level name, and a table of three entries. *)
Definition level_is (d : gmap string string) (l : log) : bool :=
  bool_decide (d !! "levelname" = Some (levelname l)).

Definition three_logs : list log :=
  [Log 1 "u1" 100 "aiida" "ERROR" 7 "failed" ∅;
   Log 2 "u2" 101 "aiida" "INFO" 7 "started" ∅;
   Log 5 "u5" 102 "aiida" "ERROR" 8 "failed again" ∅].

(** A user table of three rows. *)
Definition three_users : list Users.DbUser :=
  [Users.mkDbUser (Some 1%Z) "ada@aiida.net" "Ada" "Lovelace" "EPFL";
   Users.mkDbUser (Some 2%Z) "bob@aiida.net" "Bob" "" "";
   Users.mkDbUser (Some 3%Z) "ada@aiida.net" "Ada" "Byron" "PSI"].

(** A configuration with two profiles, [main] being the default of
    [verdi], and one with a profile and no default at all. *)
Definition two_profiles : world :=
  World (Config {["main" := {["AIIDADB_NAME" := "aiida_main"; "AIIDADB_USER" := "aiida"]};
                  "test" := {["AIIDADB_NAME" := "aiida_test"; "AIIDADB_USER" := "aiida"]}]}
                {["verdi" := "main"]})
        {["aiida_main"; "aiida_test"]} {["aiida"]} [] [] [true; false].

Definition no_default : world :=
  World (Config {["main" := {["AIIDADB_NAME" := "aiida_main"]}]} ∅)
        {["aiida_main"]} ∅ [] [] [].

(** The two profiles again, with a user who answers no four times. *)
Definition two_profiles_refusing : world :=
  World (persisted two_profiles) (databases two_profiles) (dbusers two_profiles)
        [] [] [false; false; false; false].

End Samples.

(** * Properties *)

(** ** The import dispatcher *)

Module DispatchSpec.
Import Dispatch Samples.

Section dispatch.
Context {Group Kwargs Summary Store : Type}.
Variables BACKEND_DJANGO BACKEND_SQLA : string.
Variables import_data_sqla import_data_dj : @importer Group Kwargs Summary Store.

Local Abbreviation import_data :=
  (import_data BACKEND_DJANGO BACKEND_SQLA import_data_sqla import_data_dj).

Lemma import_data_sqla_branch in_path group kwargs db :
  import_data BACKEND_SQLA in_path group kwargs db =
    ((import_data_sqla in_path group kwargs db).1,
     Effects [debug_msg "import_data_sqla" BACKEND_SQLA]
             (import_data_sqla in_path group kwargs db).2).
Proof.
  unfold Dispatch.import_data. rewrite bool_decide_eq_true_2 by done.
  by destruct (import_data_sqla in_path group kwargs db).
Qed.

Lemma import_data_dj_branch in_path group kwargs db :
  BACKEND_DJANGO ≠ BACKEND_SQLA →
  import_data BACKEND_DJANGO in_path group kwargs db =
    ((import_data_dj in_path group kwargs db).1,
     Effects [debug_msg "import_data_dj" BACKEND_DJANGO]
             (import_data_dj in_path group kwargs db).2).
Proof.
  intros Hne. unfold Dispatch.import_data.
  rewrite bool_decide_eq_false_2 by done.
  rewrite bool_decide_eq_true_2 by done.
  by destruct (import_data_dj in_path group kwargs db).
Qed.

Lemma import_data_unknown backend in_path group kwargs db :
  backend ≠ BACKEND_SQLA → backend ≠ BACKEND_DJANGO →
  import_data backend in_path group kwargs db =
    (Raise (ArchiveImportError ("Unknown backend: " +:+ backend)), Effects [] db).
Proof.
  intros H1 H2. unfold Dispatch.import_data.
  by rewrite !bool_decide_eq_false_2 by done.
Qed.

(** C1, as amended.  The dispatcher hands the call to
    [import_data_sqla] on the SQLAlchemy backend and to [import_data_dj]
    on the Django backend, and its outcome (the summary returned or the
    exception raised) and the store it leaves are theirs; on any other
    backend it calls neither, leaves the store alone and raises
    [ArchiveImportError('Unknown backend: ...')].  [ArchiveImportError]
    is therefore raised exactly when the backend is unknown or the
    importer that was selected raised it. *)
Theorem import_data_dispatch backend in_path group kwargs db :
  BACKEND_DJANGO ≠ BACKEND_SQLA →
  let r := import_data backend in_path group kwargs db in
  let r_sqla := import_data_sqla in_path group kwargs db in
  let r_dj := import_data_dj in_path group kwargs db in
  (backend = BACKEND_SQLA → r.1 = r_sqla.1 ∧ store r.2 = r_sqla.2) ∧
  (backend = BACKEND_DJANGO → r.1 = r_dj.1 ∧ store r.2 = r_dj.2) ∧
  (backend ≠ BACKEND_SQLA → backend ≠ BACKEND_DJANGO →
     r = (Raise (ArchiveImportError ("Unknown backend: " +:+ backend)), Effects [] db)) ∧
  (raises is_ArchiveImportError r.1 = true ↔
     (backend ≠ BACKEND_SQLA ∧ backend ≠ BACKEND_DJANGO) ∨
     (backend = BACKEND_SQLA ∧ raises is_ArchiveImportError r_sqla.1 = true) ∨
     (backend = BACKEND_DJANGO ∧ raises is_ArchiveImportError r_dj.1 = true)).
Proof.
  intros Hne r r_sqla r_dj. subst r r_sqla r_dj.
  destruct (decide (backend = BACKEND_SQLA)) as [->|Hs].
  - rewrite import_data_sqla_branch. simpl.
    repeat split; try done; try congruence.
    + intros H. right. by left.
    + intros [[? _]|[[_ H]|[? _]]]; done.
  - destruct (decide (backend = BACKEND_DJANGO)) as [->|Hd].
    + rewrite import_data_dj_branch by done. simpl.
      repeat split; try done.
      * intros H. right. by right.
      * intros [[_ ?]|[[? _]|[_ H]]]; done.
    + rewrite import_data_unknown by done. simpl.
      repeat split; try done.
      * intros _. by left.
Qed.
End dispatch.

Lemma import_data_dispatch_witness :
  "django" ≠ "sqlalchemy" ∧
  (import_data "django" "sqlalchemy" corrupt_archive corrupt_archive
     "postgres" "export.aiida" None () ()).1
  = Raise (ArchiveImportError "Unknown backend: postgres").
Proof.
  split; [done|].
  pose proof (import_data_dispatch "django" "sqlalchemy" corrupt_archive corrupt_archive
                "postgres" "export.aiida" None () () ltac:(done)) as (_ & _ & H & _).
  simpl in H. by rewrite H.
Defined.

(** The two importers told apart by what they return. *)
Example import_data_routes :
  let sqla : @importer unit unit string nat := λ _ _ _ db, (Return "sqla", S db) in
  let dj : @importer unit unit string nat := λ _ _ _ db, (Return "dj", db) in
  import_data "django" "sqlalchemy" sqla dj "sqlalchemy" "export.aiida" None () 0
  = (Return "sqla",
     Effects ["Calling import function import_data_sqla for the sqlalchemy backend."] 1) ∧
  import_data "django" "sqlalchemy" sqla dj "django" "export.aiida" None () 0
  = (Return "dj",
     Effects ["Calling import function import_data_dj for the django backend."] 0).
Proof. split; reflexivity. Qed.

(** C1, as stated, fails: on the SQLAlchemy backend the dispatcher raises
    the [ArchiveImportError] of the importer, although the backend is one
    of the two. *)
Lemma import_data_raises_on_known_backend :
  ¬ (raises is_ArchiveImportError
       (import_data "django" "sqlalchemy" corrupt_archive corrupt_archive
          "sqlalchemy" "export.aiida" None () ()).1 = true
     ↔ "sqlalchemy" ≠ "sqlalchemy" ∧ "sqlalchemy" ≠ "django").
Proof. intros [H _]. by destruct (H eq_refl) as [? _]. Qed.

End DispatchSpec.

(** ** The extras conflict resolver *)

Module ExtrasSpec.
Import Extras.

(** The function computes the table. *)
Lemma extras_action_decides p old new a :
  extras_action p old new = Some a ↔ decides p old new a.
Proof.
  split.
  - destruct old as [x|], new as [y|]; simpl; [|intros [= <-]..|done].
    + case_bool_decide as Hxy; intros [= <-].
      * subst y. constructor.
      * destruct (on_collision p) eqn:E; by constructor.
    + destruct (on_old_only p) eqn:E; by constructor.
    + destruct (on_new_only p) eqn:E; by constructor.
  - intros H. destruct H as [x E|x E|y E|y E|x|x y Hne E|x y Hne E|x y Hne E|x y Hne E];
      simpl; rewrite ?E; try done;
      by rewrite ?bool_decide_eq_true_2, ?bool_decide_eq_false_2 by done.
Qed.

Lemma extras_action_total p old new :
  is_Some old ∨ is_Some new → is_Some (extras_action p old new).
Proof.
  destruct old as [x|], new as [y|]; simpl; eauto.
  - intros _. by case_bool_decide.
  - by intros [[? [=]]|[? [=]]].
Qed.

Lemma decides_functional p old new a1 a2 :
  decides p old new a1 → decides p old new a2 → a1 = a2.
Proof.
  intros H1%extras_action_decides H2%extras_action_decides. congruence.
Qed.

Lemma lookup_merge_extras p (old new : gmap string value) k :
  merge_extras p old new !! k = merge_key p (old !! k) (new !! k).
Proof.
  unfold merge_extras. rewrite lookup_merge.
  by destruct (old !! k), (new !! k).
Qed.

Lemma lookup_merge_extras_seq p (old new : gmap string value) keys k :
  merge_extras_seq p old new keys !! k =
    if decide (k ∈ keys) then merge_key p (old !! k) (new !! k) else None.
Proof.
  induction keys as [|k' keys IH]; simpl.
  - by rewrite lookup_empty.
  - destruct (decide (k = k')) as [->|Hne].
    + rewrite decide_True by left.
      destruct (merge_key p (old !! k') (new !! k')) eqn:E.
      * by rewrite lookup_insert_eq.
      * rewrite IH. by case_decide.
    + assert (merge_extras_seq p old new keys !! k =
              if decide (k ∈ k' :: keys)
              then merge_key p (old !! k) (new !! k) else None) as IH'.
      { rewrite IH. destruct (decide (k ∈ keys)), (decide (k ∈ k' :: keys)); try done; set_solver. }
      destruct (merge_key p (old !! k') (new !! k')); [|done].
      by rewrite lookup_insert_ne.
Qed.

Lemma merge_extras_seq_covering p (old new : gmap string value) keys :
  (∀ k, k ∈ dom old ∪ dom new → k ∈ keys) →
  merge_extras_seq p old new keys = merge_extras p old new.
Proof.
  intros Hcov. apply map_eq. intros k.
  rewrite lookup_merge_extras_seq, lookup_merge_extras.
  case_decide as Hk; [done|].
  assert (k ∉ dom old ∪ dom new) as Hd by naive_solver.
  apply not_elem_of_union in Hd as [H1%not_elem_of_dom H2%not_elem_of_dom].
  by rewrite H1, H2.
Qed.

(** C4.  The resolver is a total function of the existing extras, the
    incoming extras and the policy code.  A code is either three valid
    letters, and then the merge returns, or it is refused.  Under every
    policy each key that one of the two sides has falls under exactly one
    action of the table (keep existing, take incoming, delete, prompt the
    user), which fixes its entry in the merged mapping; a key neither side
    has is not in it.  The merged mapping does not depend on the order in
    which the keys are visited. *)
Theorem merge_extras_total_deterministic (old new : gmap string value) :
  (∀ code,
     (∃ p, parse_mode code = Some p ∧
           merge_extras_code code old new = Return (merge_extras p old new)) ∨
     (parse_mode code = None ∧
      raises is_ValidationError (merge_extras_code code old new) = true)) ∧
  (∀ p k,
     is_Some (old !! k) ∨ is_Some (new !! k) →
     ∃ a, decides p (old !! k) (new !! k) a ∧
          (∀ a', decides p (old !! k) (new !! k) a' → a' = a) ∧
          merge_extras p old new !! k = apply_action a (old !! k) (new !! k)) ∧
  (∀ p k, old !! k = None → new !! k = None → merge_extras p old new !! k = None) ∧
  (∀ p keys1 keys2,
     (∀ k, k ∈ dom old ∪ dom new → k ∈ keys1) →
     (∀ k, k ∈ dom old ∪ dom new → k ∈ keys2) →
     merge_extras_seq p old new keys1 = merge_extras_seq p old new keys2).
Proof.
  split_and!.
  - intros code. unfold merge_extras_code.
    destruct (parse_mode code) as [p|]; [left; eauto | right; done].
  - intros p k Hk.
    destruct (extras_action_total p _ _ Hk) as [a Ha].
    exists a. split_and!.
    + by apply extras_action_decides.
    + intros a' Ha'. apply extras_action_decides in Ha'. congruence.
    + rewrite lookup_merge_extras. unfold merge_key. by rewrite Ha.
  - intros p k H1 H2. rewrite lookup_merge_extras. by rewrite H1, H2.
  - intros p keys1 keys2 H1 H2. by rewrite !merge_extras_seq_covering.
Qed.

Lemma merge_extras_total_deterministic_witness :
  merge_extras_seq (Policy Keep Create Ask)
    {["a" := VInt 1]} {["a" := VInt 2; "b" := VNull]} ["a"; "b"]
  = merge_extras_seq (Policy Keep Create Ask)
      {["a" := VInt 1]} {["a" := VInt 2; "b" := VNull]} ["b"; "a"; "b"].
Proof.
  destruct (merge_extras_total_deterministic
              {["a" := VInt 1]} {["a" := VInt 2; "b" := VNull]}) as (_ & _ & _ & H).
  apply H; intros k; rewrite dom_singleton_L, dom_insert_L, dom_singleton_L; set_solver.
Defined.

(** The letters of the code 'kca' at work: a key both sides have with
    differing values is left to the user, a key only the archive has is
    created. *)
Example merge_extras_kca :
  merge_extras_code "kca" {["a" := VInt 1]} {["a" := VInt 2; "b" := VNull]}
  = Return {["a" := Pending (VInt 1) (VInt 2); "b" := Settled VNull]}.
Proof. by vm_compute. Qed.

Example merge_extras_bad_code :
  merge_extras_code "kcx" {["a" := VInt 1]} ∅
  = Raise (ValidationError "invalid extras mode: kcx").
Proof. reflexivity. Qed.

End ExtrasSpec.

(** ** Comments *)

Module CommentsSpec.
Import Comments.

Lemma merge_comment_uuid mode existing incoming :
  c_uuid existing = c_uuid incoming →
  c_uuid (merge_comment mode existing incoming) = c_uuid incoming.
Proof. intros E. destruct mode; simpl; [by case_bool_decide | done]. Qed.

Lemma find_import_comment mode dest existing incoming :
  find_comment (c_uuid incoming) dest = Some existing →
  find_comment (c_uuid incoming) (import_comment mode dest incoming)
  = Some (merge_comment mode existing incoming).
Proof.
  unfold find_comment. induction dest as [|c dest IH]; simpl; [done|].
  destruct (decide (c_uuid c = c_uuid incoming)) as [E|Hne].
  - rewrite !bool_decide_eq_true_2 by done. intros [= ->]. simpl.
    by rewrite bool_decide_eq_true_2 by by apply merge_comment_uuid.
  - rewrite !bool_decide_eq_false_2 by done. simpl.
    by rewrite bool_decide_eq_false_2 by done.
Qed.

(** C5.  When the destination has a comment with the UUID of an incoming
    one, the comment found under that UUID after the import is their
    merge: under 'overwrite' the incoming comment, whatever the times;
    under 'newest' the one modified later, so the incoming one (and its
    text) when its time T2 is after the time T1 of the existing one, and
    the existing one when T2 is before T1. *)
Theorem comment_merge_modes dest existing incoming :
  find_comment (c_uuid incoming) dest = Some existing →
  (∀ mode, find_comment (c_uuid incoming) (import_comment mode dest incoming)
           = Some (merge_comment mode existing incoming)) ∧
  merge_comment Overwrite existing incoming = incoming ∧
  ((mtime existing < mtime incoming)%Z →
     merge_comment Newest existing incoming = incoming ∧
     content (merge_comment Newest existing incoming) = content incoming) ∧
  ((mtime incoming < mtime existing)%Z →
     merge_comment Newest existing incoming = existing).
Proof.
  intros Hfind. split_and!.
  - intros mode. by apply find_import_comment.
  - done.
  - intros Hlt. simpl. by rewrite bool_decide_eq_true_2 by done.
  - intros Hlt. simpl. by rewrite bool_decide_eq_false_2 by lia.
Qed.

Lemma comment_merge_modes_witness :
  let existing := Comment "c-1" "n-1" 10 "first draft" in
  let incoming := Comment "c-1" "n-1" 20 "revised" in
  let other := Comment "c-0" "n-1" 5 "unrelated" in
  content <$> find_comment "c-1" (import_comment Newest [other; existing] incoming)
  = Some "revised".
Proof.
  intros existing incoming other.
  destruct (comment_merge_modes [other; existing] existing incoming eq_refl)
    as (Hfind & _ & Hnew & _).
  change (c_uuid incoming) with "c-1" in Hfind. rewrite Hfind.
  destruct Hnew as [-> _]; done.
Defined.

End CommentsSpec.

(** ** Archives *)

Module ArchiveSpec.
Import Archive Samples.

Section import_facts.
Variable opts : options.
Variable confirm : string → value → value → bool.

Local Abbreviation import_node := (import_node opts confirm).
Local Abbreviation import_nodes := (import_nodes opts confirm).
Local Abbreviation new_node := (new_node opts).

Lemma uuid_merge_into incoming n : uuid (merge_into opts confirm incoming n) = uuid n.
Proof. unfold merge_into. by case_bool_decide. Qed.

Lemma uuids_merge_into incoming ns :
  uuids (merge_into opts confirm incoming <$> ns) = uuids ns.
Proof.
  unfold uuids. rewrite <- list_fmap_compose.
  apply list_fmap_ext. intros i n _. apply uuid_merge_into.
Qed.

Lemma has_uuid_true u ns : u ∈ uuids ns → has_uuid u ns = true.
Proof. intros H. unfold has_uuid. by rewrite bool_decide_eq_true_2. Qed.

Lemma has_uuid_false u ns : u ∉ uuids ns → has_uuid u ns = false.
Proof. intros H. unfold has_uuid. by rewrite bool_decide_eq_false_2. Qed.

(** Records whose UUIDs are all in the store create nothing. *)
Lemma import_present incoming : ∀ ns s,
  (∀ n, n ∈ incoming → uuid n ∈ uuids ns) →
  let r := foldl import_node (ns, s) incoming in
  uuids r.1 = uuids ns ∧
  created r.2 = created s ∧
  existing r.2 = existing s ++ uuids incoming.
Proof.
  induction incoming as [|n incoming IH]; intros ns s Hin; simpl.
  - by rewrite app_nil_r.
  - rewrite has_uuid_true by (apply Hin; left).
    destruct (IH (merge_into opts confirm n <$> ns)
                 (Summary (created s) (existing s ++ [uuid n]))) as (H1 & H2 & H3).
    { intros m Hm. rewrite uuids_merge_into. apply Hin. by right. }
    rewrite H1, H2, H3, uuids_merge_into. simpl.
    by rewrite <- app_assoc.
Qed.

(** After an import the store has every UUID it had and every UUID of the
    records. *)
Lemma import_covers incoming : ∀ ns s,
  let r := foldl import_node (ns, s) incoming in
  (∀ u, u ∈ uuids ns → u ∈ uuids r.1) ∧
  (∀ n, n ∈ incoming → uuid n ∈ uuids r.1).
Proof.
  induction incoming as [|n incoming IH]; intros ns s; simpl.
  - split; [done|]. intros n Hn. by apply elem_of_nil in Hn.
  - destruct (decide (uuid n ∈ uuids ns)) as [Hin|Hout].
    + rewrite has_uuid_true by done.
      destruct (IH (merge_into opts confirm n <$> ns)
                   (Summary (created s) (existing s ++ [uuid n]))) as [H1 H2].
      split.
      * intros u Hu. apply H1. by rewrite uuids_merge_into.
      * intros m [->|Hm]%elem_of_cons; [|by apply H2].
        apply H1. by rewrite uuids_merge_into.
    + rewrite has_uuid_false by done.
      destruct (IH (ns ++ [new_node n])
                   (Summary (created s ++ [uuid n]) (existing s))) as [H1 H2].
      assert (uuids (ns ++ [new_node n]) = uuids ns ++ [uuid n]) as E
        by (unfold uuids; by rewrite fmap_app).
      split.
      * intros u Hu. apply H1. rewrite E. set_solver.
      * intros m [->|Hm]%elem_of_cons; [|by apply H2].
        apply H1. rewrite E. set_solver.
Qed.

(** Records with fresh, pairwise distinct UUIDs are all created, in
    order. *)
Lemma import_fresh incoming : ∀ ns s,
  NoDup (uuids ns ++ uuids incoming) →
  foldl import_node (ns, s) incoming =
    (ns ++ (new_node <$> incoming),
     Summary (created s ++ uuids incoming) (existing s)).
Proof.
  induction incoming as [|n incoming IH]; intros ns s Hnd; simpl.
  - rewrite !app_nil_r. by destruct s.
  - apply NoDup_app in Hnd as Hnd'. destruct Hnd' as (_ & Hdisj & _).
    rewrite has_uuid_false.
    2:{ intros Hin. apply (Hdisj _ Hin). left. }
    rewrite IH; simpl.
    + by rewrite <- !app_assoc.
    + unfold uuids in *. rewrite fmap_app, <- app_assoc. done.
Qed.

Lemma import_never_duplicates incoming : ∀ ns s,
  NoDup (uuids ns) → NoDup (uuids (foldl import_node (ns, s) incoming).1).
Proof.
  induction incoming as [|n incoming IH]; intros ns s Hnd; simpl; [done|].
  destruct (decide (uuid n ∈ uuids ns)) as [Hin|Hout].
  - rewrite has_uuid_true by done. apply IH. by rewrite uuids_merge_into.
  - rewrite has_uuid_false by done. apply IH.
    unfold uuids in *. rewrite fmap_app. simpl.
    apply NoDup_app. split_and!; [done| |apply NoDup_singleton].
    intros u Hu ->%list_elem_of_singleton. done.
Qed.

Lemma lookup_new_node ns n :
  NoDup (uuids ns) → n ∈ ns →
  lookup_node (uuid n) (new_node <$> ns) = Some (new_node n).
Proof.
  unfold lookup_node. induction ns as [|m ns IH]; simpl.
  - intros _ Hn. by apply elem_of_nil in Hn.
  - intros [Hm Hnd]%NoDup_cons [->|Hn]%elem_of_cons.
    + by rewrite bool_decide_eq_true_2.
    + rewrite bool_decide_eq_false_2; [by apply IH|].
      intros E. apply Hm. rewrite E. unfold uuids. by apply list_elem_of_fmap_2.
Qed.

Lemma lookup_node_absent u ns :
  u ∉ uuids ns → lookup_node u (new_node <$> ns) = None.
Proof.
  unfold lookup_node. induction ns as [|m ns IH]; simpl; [done|].
  intros Hu. apply not_elem_of_cons in Hu as [Hne Hu].
  rewrite bool_decide_eq_false_2 by done. by apply IH.
Qed.
End import_facts.

(** C2.  A second import of an archive, whatever its options, reports
    every node of the archive as existing and none as created, and leaves
    the UUIDs of the store as the first import left them. *)
Theorem import_twice_creates_nothing opts confirm opts' confirm' db b :
  let db1 := (import_bundle opts confirm db b).1 in
  let r2 := import_bundle opts' confirm' db1 b in
  created r2.2 = [] ∧
  existing r2.2 = uuids (b_nodes b) ∧
  uuids (nodes r2.1) = uuids (nodes db1).
Proof.
  unfold import_bundle, import_nodes.
  pose proof (import_covers opts confirm (b_nodes b) (nodes db) (Summary [] [])) as [_ Hcov].
  destruct (foldl (import_node opts confirm) (nodes db, Summary [] []) (b_nodes b))
    as [ns1 s1] eqn:E1. simpl in *.
  pose proof (import_present opts' confirm' (b_nodes b) ns1 (Summary [] []) Hcov)
    as (H1 & H2 & H3).
  destruct (foldl (import_node opts' confirm') (ns1, Summary [] []) (b_nodes b))
    as [ns2 s2] eqn:E2. simpl in *. done.
Qed.

Section round_trip.
Variable traverse : database → list string → list string.
Variable opts : options.
Variable confirm : string → value → value → bool.

Lemma export_nodes_NoDup db selection :
  NoDup (uuids (nodes db)) → NoDup (uuids (b_nodes (export traverse db selection))).
Proof.
  intros Hnd. simpl. eapply sublist_NoDup; [done|].
  unfold uuids. apply fmap_sublist, sublist_filter.
Qed.

Lemma import_export_nodes db selection :
  NoDup (uuids (nodes db)) →
  import_nodes opts confirm [] (b_nodes (export traverse db selection)) =
    (new_node opts <$> b_nodes (export traverse db selection),
     Summary (uuids (b_nodes (export traverse db selection))) []).
Proof.
  intros Hnd. unfold import_nodes. rewrite import_fresh; [done|].
  simpl. by apply export_nodes_NoDup.
Qed.

(** C3.  On a database whose nodes have distinct UUIDs, exporting a
    selection and importing the archive into a fresh store creates, for
    every node the export reached, a node with its UUID, its type and its
    attribute values, and nothing else: no node is found under a UUID the
    export left out. *)
Theorem export_import_round_trip db selection :
  NoDup (uuids (nodes db)) →
  let r := import_bundle opts confirm fresh (export traverse db selection) in
  (∀ n, n ∈ nodes db → uuid n ∈ traverse db selection →
        ∃ n', lookup_node (uuid n) (nodes r.1) = Some n' ∧
              uuid n' = uuid n ∧ node_type n' = node_type n ∧
              attributes n' = attributes n) ∧
  (∀ u, u ∉ traverse db selection → lookup_node u (nodes r.1) = None) ∧
  created r.2 = uuids (b_nodes (export traverse db selection)) ∧
  existing r.2 = [].
Proof.
  intros Hnd r. subst r. unfold import_bundle.
  change (nodes fresh) with (@nil node).
  rewrite import_export_nodes by done. simpl.
  repeat split; try done.
  - intros n Hn Hkeep. exists (new_node opts n). split; [|done].
    apply lookup_new_node.
    + by apply (export_nodes_NoDup db selection).
    + by apply list_elem_of_filter.
  - intros u Hu. apply lookup_node_absent.
    unfold uuids. intros (n & -> & Hn)%list_elem_of_fmap.
    apply list_elem_of_filter in Hn as [Hkeep _]. done.
Qed.
End round_trip.

Example calcfunction_export :
  uuids (b_nodes (export return_backward calcfunction_db ["res"])) = ["a"; "e"; "add"; "res"].
Proof. by vm_compute. Qed.

Lemma export_import_round_trip_witness :
  let db' := (import_bundle default_options (λ _ _ _, false) fresh
                (export return_backward calcfunction_db ["res"])).1 in
  NoDup (uuids (nodes calcfunction_db)) ∧
  lookup_node "b" (nodes db') = None ∧
  lookup_node "c" (nodes db') = None ∧
  lookup_node "d" (nodes db') = None.
Proof.
  intros db'.
  assert (NoDup (uuids (nodes calcfunction_db))) as Hnd
    by compute_done.
  split; [done|].
  destruct (export_import_round_trip return_backward default_options (λ _ _ _, false)
              calcfunction_db ["res"] Hnd) as (_ & Hout & _).
  split_and!; apply Hout; compute_done.
Defined.

(** Importing the archive of the test a second time. *)
Example calcfunction_import_twice :
  let b := export return_backward calcfunction_db ["res"] in
  let r1 := import_bundle default_options (λ _ _ _, false) fresh b in
  let r2 := import_bundle default_options (λ _ _ _, false) r1.1 b in
  (created r1.2, existing r1.2) = (["a"; "e"; "add"; "res"], []) ∧
  (created r2.2, existing r2.2) = ([], ["a"; "e"; "add"; "res"]) ∧
  (lookup_node "res" (nodes r2.1) ≫= λ n, attributes n !! "value") = Some (VInt 4).
Proof. by vm_compute. Qed.

End ArchiveSpec.

(** ** The log collection *)

Module LogsSpec.
Import Logs Samples.

Lemma filter_ext_in {A} (P1 P2 : A → Prop)
    `{!∀ x, Decision (P1 x), !∀ x, Decision (P2 x)} (l : list A) :
  (∀ x, x ∈ l → P1 x ↔ P2 x) → filter P1 l = filter P2 l.
Proof.
  induction l as [|a l IH]; intros Hiff; [done|].
  assert (filter P1 l = filter P2 l) as E.
  { apply IH. intros x Hx. apply Hiff. by right. }
  destruct (decide (P1 a)) as [Ha|Ha].
  - rewrite !filter_cons_True; [by rewrite E|by apply Hiff; [left|]|done].
  - rewrite !filter_cons_False; [done| |done].
    intros Ha'. apply Ha. apply Hiff; [left|done].
Qed.

Lemma filter_all {A} (P : A → Prop) `{!∀ x, Decision (P x)} (l : list A) :
  (∀ x, P x) → filter P l = l.
Proof.
  intros HP. induction l as [|a l IH]; [done|].
  rewrite filter_cons_True by done. by rewrite IH.
Qed.

Lemma pk_inj_on (logs : list log) l1 l2 :
  NoDup (pk <$> logs) → l1 ∈ logs → l2 ∈ logs → pk l1 = pk l2 → l1 = l2.
Proof.
  induction logs as [|l logs IH]; simpl.
  - intros _ H. by apply elem_of_nil in H.
  - intros [Hl Hnd]%NoDup_cons [->|H1]%elem_of_cons [->|H2]%elem_of_cons E; auto.
    + exfalso. apply Hl. rewrite E. by apply list_elem_of_fmap_2.
    + exfalso. apply Hl. rewrite <- E. by apply list_elem_of_fmap_2.
Qed.

Lemma delete_present log_id logs :
  log_id ∈ pk <$> logs →
  delete log_id logs = (Return (), filter (λ l, pk l ≠ log_id) logs).
Proof. intros H. unfold delete. by rewrite bool_decide_eq_true_2. Qed.

(** Deleting ids that are distinct and all in the table succeeds and
    removes the rows that carry them. *)
Lemma delete_each_present ids : ∀ logs,
  NoDup ids → (∀ i, i ∈ ids → i ∈ pk <$> logs) →
  delete_each ids logs = (Return (), filter (λ l, pk l ∉ ids) logs).
Proof.
  induction ids as [|i ids IH]; intros logs Hnd Hin; simpl.
  - f_equal. symmetry. apply filter_all. intros l. apply not_elem_of_nil.
  - apply NoDup_cons in Hnd as [Hi Hnd].
    rewrite delete_present by (apply Hin; left).
    rewrite IH; [|done|].
    + f_equal. rewrite list_filter_filter. apply list_filter_iff.
      intros l. rewrite not_elem_of_cons. naive_solver.
    + intros j Hj.
      destruct (proj1 (list_elem_of_fmap _ _ _) (Hin j ltac:(by right))) as (l & -> & Hl).
      apply list_elem_of_fmap_2. apply list_elem_of_filter. split; [|done].
      intros E. apply Hi. by rewrite <- E.
Qed.

Section delete_many.
Context {Cond : Type}.
Variable matches : gmap string Cond → log → bool.

(** C6.  An empty filter dictionary is refused with [ValidationError] and
    the collection is left as it is, whatever it holds.  A filter that is
    a dictionary and not empty, on a table whose primary keys are
    distinct, returns the primary keys of the rows that match; these rows
    are deleted and the others stay. *)
Theorem delete_many_contract (logs : list log) :
  delete_many matches (FDict ∅) logs
  = (Raise (ValidationError "filters must not be empty"), logs) ∧
  (∀ d, d ≠ ∅ → NoDup (pk <$> logs) →
        delete_many matches (FDict d) logs
        = (Return (pk <$> filter (λ l, matches d l) logs),
           filter (λ l, ¬ matches d l) logs)).
Proof.
  split; [done|].
  intros d Hd Hnd. unfold delete_many.
  rewrite bool_decide_eq_false_2 by done.
  rewrite delete_each_present.
  - f_equal. apply filter_ext_in. intros l Hl. split.
    + intros Hout Hm. apply Hout. apply list_elem_of_fmap_2.
      by apply list_elem_of_filter.
    + intros Hm (l' & E & [Hm' Hl']%list_elem_of_filter)%list_elem_of_fmap.
      apply Hm. by rewrite (pk_inj_on logs l l' Hnd Hl Hl' E).
  - eapply sublist_NoDup; [done|]. apply fmap_sublist, sublist_filter.
  - intros i (l & -> & [_ Hl]%list_elem_of_filter)%list_elem_of_fmap.
    by apply list_elem_of_fmap_2.
Qed.
End delete_many.

Lemma delete_many_contract_witness :
  (fst (delete_many level_is (FDict {["levelname" := "ERROR"]}) three_logs),
   pk <$> snd (delete_many level_is (FDict {["levelname" := "ERROR"]}) three_logs))
  = (Return [1; 5]%Z, [2%Z]).
Proof.
  destruct (delete_many_contract level_is three_logs) as [_ H].
  rewrite (H {["levelname" := "ERROR"]}).
  - by vm_compute.
  - apply insert_non_empty.
  - compute_done.
Defined.

End LogsSpec.

(** ** The Django user collection *)

Module UsersSpec.
Import Users.

Section users.
Context {Backend : Type}.
Variable from_dbmodel : Backend → DbUser → DjangoUser Backend.
Implicit Types (self : Backend) (table : list DbUser).

Local Abbreviation find := (find from_dbmodel).

(** C9.  [create] returns a user that carries the four values it was
    given and whose model instance has no primary key: it has not been
    saved.  The user table after the call is the table before it. *)
Theorem create_not_stored self e fn ln inst table :
  let r := create self e fn ln inst table in
  email (dbmodel r.1) = e ∧
  first_name (dbmodel r.1) = fn ∧
  last_name (dbmodel r.1) = ln ∧
  institution (dbmodel r.1) = inst ∧
  backend r.1 = self ∧
  id (dbmodel r.1) = None ∧
  r.2 = table.
Proof. simpl. by repeat split. Qed.

Lemma Q_holds_both i e row :
  Q_holds (reduce Q_and (Q_pk i) [Q_email e]) row ↔ id row = Some i ∧ email row = e.
Proof.
  simpl. rewrite andb_True, !bool_decide_spec. done.
Qed.

(** C10.  Without filters [find] returns every user of the table, in the
    order of the table; with both filters it returns the users whose id
    and whose email both match; with one filter those that match it.  The
    table is the same after the call in every case. *)
Theorem find_contract self table :
  (find self None None table).1 = from_dbmodel self <$> table ∧
  (∀ e i, (find self (Some e) (Some i) table).1
          = from_dbmodel self <$> filter (λ row, id row = Some i ∧ email row = e) table) ∧
  (∀ e, (find self (Some e) None table).1
        = from_dbmodel self <$> filter (λ row, email row = e) table) ∧
  (∀ i, (find self None (Some i) table).1
        = from_dbmodel self <$> filter (λ row, id row = Some i) table) ∧
  (∀ e i, (find self e i table).2 = table).
Proof.
  repeat split; try done.
  - intros e i. simpl. f_equal. apply list_filter_iff. intros row.
    apply Q_holds_both.
  - intros e. simpl. f_equal. apply list_filter_iff. intros row.
    by rewrite bool_decide_spec.
  - intros i. simpl. f_equal. apply list_filter_iff. intros row.
    by rewrite bool_decide_spec.
Qed.
End users.

Example find_all :
  dbmodel <$> (find mkDjangoUser () None None Samples.three_users).1 = Samples.three_users.
Proof. reflexivity. Qed.

Example find_by_email :
  (λ u, id (dbmodel u)) <$> (find mkDjangoUser () (Some "ada@aiida.net") None Samples.three_users).1
  = [Some 1; Some 3]%Z.
Proof. reflexivity. Qed.

Example find_by_both :
  (λ u, last_name (dbmodel u)) <$>
    (find mkDjangoUser () (Some "ada@aiida.net") (Some 3%Z) Samples.three_users).1
  = ["Byron"].
Proof. reflexivity. Qed.

Example find_nobody :
  (find mkDjangoUser () (Some "bob@aiida.net") (Some 3%Z) Samples.three_users).1 = [].
Proof. reflexivity. Qed.

Example create_then_find :
  let r := create () "eve@aiida.net" "" "" "" Samples.three_users in
  (find mkDjangoUser () (Some "eve@aiida.net") None r.2).1 = [].
Proof. reflexivity. Qed.

End UsersSpec.

(** ** The profile command *)

Module ProfileSpec.
Import Profile Samples.

Lemma filter_fmap {A B} (f : A → B) (P : B → Prop) `{!∀ y, Decision (P y)} (l : list A) :
  filter P (f <$> l) = f <$> filter (λ x, P (f x)) l.
Proof.
  induction l as [|a l IH]; [done|].
  rewrite fmap_cons, (filter_cons P), (filter_cons (λ x, P (f x))).
  destruct (decide (P (f a))); [rewrite fmap_cons|]; by rewrite IH.
Qed.

(** In a list without repetitions at most one entry is a given one. *)
Lemma count_occurrence (names : list string) (c : option string) :
  NoDup names →
  length (filter (λ n, Some n = c) names)
  = if match c with Some p => bool_decide (p ∈ names) | None => false end then 1 else 0.
Proof.
  intros Hnd. destruct c as [p|].
  2:{ rewrite (list_filter_iff _ (λ _, False)) by done.
      clear Hnd. induction names as [|n names IH]; [done|].
      rewrite filter_cons_False; [done|tauto]. }
  induction Hnd as [|n names Hn Hnd IH].
  - done.
  - rewrite filter_cons. destruct (decide (Some n = Some p)) as [[= ->]|Hne]; simpl.
    + rewrite IH. rewrite bool_decide_eq_false_2 by done.
      by rewrite bool_decide_eq_true_2 by left.
    + rewrite IH. apply (f_equal (λ b : bool, if b then 1 else 0)).
      apply bool_decide_ext. rewrite elem_of_cons. naive_solver.
Qed.

(** The three tests of the loop body, case by case. *)
Ltac row_cases := unfold list_row; do 3 case_bool_decide; simpl; naive_solver.

Lemma marked_current_row c d dd n : marked_current (list_row c d dd n) ↔ Some n = c.
Proof. unfold marked_current. row_cases. Qed.

Lemma marked_default_row c d dd n : marked_default (list_row c d dd n) ↔ Some n = d.
Proof. unfold marked_default. row_cases. Qed.

Lemma marked_daemon_row c d dd n : marked_daemon (list_row c d dd n) ↔ Some n = dd.
Proof. unfold marked_daemon. row_cases. Qed.

Lemma get_profiles_list_NoDup w : NoDup (get_profiles_list w).
Proof. apply NoDup_fst_map_to_list. Qed.

Lemma count_marked (P : row → Prop) `{!∀ r, Decision (P r)} c d dd (x : option string) names :
  (∀ n, P (list_row c d dd n) ↔ Some n = x) →
  NoDup names →
  length (filter P (list_row c d dd <$> names))
  = if match x with Some p => bool_decide (p ∈ names) | None => false end then 1 else 0.
Proof.
  intros HP Hnd. rewrite filter_fmap, length_fmap.
  rewrite <- count_occurrence by done. f_equal.
  apply list_filter_iff. intros n. apply HP.
Qed.

(** C8, as amended.  The listing has one row per profile of the registry.
    It marks the current profile, which is [AIIDADB_PROFILE] or, when that
    is not set, the default of the running process: one row when that
    profile is in the registry, none when there is no current profile or
    it is not registered.  In the same way it marks the default profile of
    the running process on at most one row and the default of the daemon
    on at most one row.  With no argument, or [--color] alone, these rows
    are what the command prints. *)
Theorem profile_list_marks AIIDADB_PROFILE CURRENT_AIIDADB_PROCESS w :
  let rows := list_rows AIIDADB_PROFILE CURRENT_AIIDADB_PROCESS w in
  name <$> rows = get_profiles_list w ∧
  length (filter marked_current rows)
  = (if registered (current_of AIIDADB_PROFILE CURRENT_AIIDADB_PROCESS w) w then 1 else 0) ∧
  length (filter marked_default rows)
  = (if registered (get_default_profile CURRENT_AIIDADB_PROCESS w) w then 1 else 0) ∧
  length (filter marked_daemon rows)
  = (if registered (get_default_profile "daemon" w) w then 1 else 0) ∧
  (∀ args use_colors, list_args args = Some use_colors →
     ∃ notice,
       stdout (profile_list AIIDADB_PROFILE CURRENT_AIIDADB_PROCESS args w).2
       = stdout w ++ (render use_colors <$> rows) ∧
       stderr (profile_list AIIDADB_PROFILE CURRENT_AIIDADB_PROCESS args w).2
       = stderr w ++ notice ∧
       (notice = [] ↔ is_Some (current_of AIIDADB_PROFILE CURRENT_AIIDADB_PROCESS w))).
Proof.
  intros rows. subst rows. unfold list_rows.
  pose proof (get_profiles_list_NoDup w) as Hnd.
  split_and!.
  - rewrite <- list_fmap_compose. rewrite <- (list_fmap_id (get_profiles_list w)) at 2.
    apply list_fmap_ext. intros i n _. unfold list_row. simpl.
    by do 3 case_bool_decide.
  - apply count_marked; [apply marked_current_row|done].
  - apply count_marked; [apply marked_default_row|done].
  - apply count_marked; [apply marked_daemon_row|done].
  - intros args use_colors Hargs. unfold profile_list. rewrite Hargs.
    unfold list_rows.
    set (rows := list_row _ _ _ <$> _).
    assert (∀ rs w0, stdout (foldl (λ acc r, print (render use_colors r) acc) w0 rs)
                     = stdout w0 ++ (render use_colors <$> rs) ∧
                     stderr (foldl (λ acc r, print (render use_colors r) acc) w0 rs)
                     = stderr w0) as Hprint.
    { induction rs as [|r rs IH]; intros w0; simpl.
      - by rewrite app_nil_r.
      - destruct (IH (print (render use_colors r) w0)) as [-> ->]. simpl.
        by rewrite <- app_assoc. }
    destruct (current_of AIIDADB_PROFILE CURRENT_AIIDADB_PROCESS w) as [p|] eqn:E.
    + exists []. simpl. destruct (Hprint rows w) as [-> ->].
      rewrite app_nil_r. split_and!; [done|done|]. split; eauto.
    + eexists [_]. simpl.
      match goal with |- context [foldl _ ?w0 rows] =>
        destruct (Hprint rows w0) as [-> ->] end.
      simpl. split_and!; [done|done|].
      split; [done|]. by intros [? [=]].
Qed.

Lemma profile_list_marks_witness :
  list_args [] = Some false ∧
  length (filter marked_current (list_rows None "verdi" two_profiles)) = 1 ∧
  stdout (profile_list None "verdi" [] two_profiles).2 = ["> main (DEFAULT) "; "* test "].
Proof.
  split; [done|].
  destruct (profile_list_marks None "verdi" two_profiles) as (_ & Hcur & _ & _ & Hout).
  split; [by rewrite Hcur|].
  destruct (Hout [] false eq_refl) as (notice & -> & _). by vm_compute.
Defined.

(** C8, as stated, fails: with no default profile configured and no
    profile selected, the listing prints the only profile with [*] and
    marks no profile as the current one. *)
Lemma profile_list_without_current :
  stdout (profile_list None "verdi" [] no_default).2 = ["* main "] ∧
  length (filter marked_current (list_rows None "verdi" no_default)) ≠ 1.
Proof. split; by vm_compute. Qed.

Section misuse.
Variable set_default_profile : string → string → bool → world → outcome unit * world.

Lemma delete_unknown_first name rest w :
  profiles (persisted w) !! name = None →
  profile_delete (name :: rest) w
  = (Raise (ValueError ("Profile " +:+ dq +:+ name +:+ dq +:+ " does not exist")), w).
Proof. intros H. unfold profile_delete. simpl. by rewrite H. Qed.

(** C7, as amended.  [profile_setdefault] with a number of arguments
    other than two, or with a process that is not one of the valid ones,
    prints a message on the error stream, exits with status 1 and leaves
    the configuration, the databases and the database users as they were.
    [profile_delete] whose first argument names no profile of the registry
    raises [ValueError] and changes nothing. *)
Theorem profile_misuse_leaves_state args w :
  (length args ≠ 2 ∨ nth 0 args "" ∉ valid_processes →
   let r := profile_setdefault set_default_profile args w in
   r.1 = Raise (SystemExit 1) ∧
   durable r.2 = durable w ∧
   stdout r.2 = stdout w ∧
   ∃ msg, msg ≠ [] ∧ stderr r.2 = stderr w ++ msg) ∧
  (profiles (persisted w) !! nth 0 args "" = None → args ≠ [] →
   profile_delete args w
   = (Raise (ValueError ("Profile " +:+ dq +:+ nth 0 args "" +:+ dq +:+ " does not exist")),
      w)).
Proof.
  split.
  - intros Hbad. unfold profile_setdefault.
    destruct (decide (length args ≠ 2)) as [Hlen|Hlen].
    + rewrite bool_decide_eq_true_2 by done. simpl.
      repeat split. eexists [_; _]. split; [done|]. by rewrite <- app_assoc.
    + rewrite bool_decide_eq_false_2 by done.
      destruct Hbad as [?|Hproc]; [done|].
      rewrite bool_decide_eq_true_2 by done. simpl.
      repeat split. by eexists [_].
  - intros Hnone Hargs. destruct args as [|name rest]; [done|].
    by apply delete_unknown_first.
Qed.
End misuse.

Lemma profile_misuse_leaves_state_witness :
  let set_default := λ process profile (_ : bool) w,
    (Return (), update_config (Config (profiles (persisted w))
                                      (<[process := profile]> (default_profiles (persisted w)))) w) in
  (profile_setdefault set_default ["cron"; "test"] two_profiles).1 = Raise (SystemExit 1) ∧
  durable (profile_setdefault set_default ["cron"; "test"] two_profiles).2
  = durable two_profiles ∧
  (profile_delete ["prod"; "main"] two_profiles).2 = two_profiles.
Proof.
  intros set_default.
  destruct (profile_misuse_leaves_state set_default ["cron"; "test"] two_profiles) as [Hset _].
  destruct (profile_misuse_leaves_state set_default ["prod"; "main"] two_profiles) as [_ Hdel].
  destruct Hset as (H1 & H2 & _).
  { right. compute_done. }
  split; [done|]. split; [done|].
  rewrite Hdel; [done|by vm_compute|done].
Defined.

(** C7, as stated, fails: [profile_delete] with a registered profile
    followed by an unknown one raises for the unknown name after it has
    dropped the database of the first profile and removed it from the
    registry, and prints no message on the error stream. *)
Lemma profile_delete_unknown_after_known :
  let r := profile_delete ["main"; "prod"] two_profiles in
  profiles (persisted two_profiles) !! "prod" = None ∧
  r.1 = Raise (ValueError ("Profile " +:+ dq +:+ "prod" +:+ dq +:+ " does not exist")) ∧
  stderr r.2 = [] ∧
  durable r.2 ≠ durable two_profiles ∧
  get_profiles_list r.2 = ["test"] ∧
  elements (databases r.2) = ["aiida_test"].
Proof.
  split_and!; by vm_compute.
Qed.

End ProfileSpec.

(** ** The profile command: further properties *)

Module ProfileFacts.
Import Profile Samples.

Lemma list_args_refused args :
  list_args args = None ↔ args ≠ [] ∧ args ≠ ["--color"].
Proof.
  destruct args as [|a [|b rest]]; simpl.
  - split; [done|]. by intros [? _].
  - destruct (decide (a = "--color")) as [->|Hne].
    + split; [done|]. by intros [_ ?].
    + rewrite bool_decide_eq_true_2 by done. split; [|done].
      intros _. split; [done|]. by intros [= ->].
  - split; [|done]. intros _. by split.
Qed.

Lemma print_rows_frame use_colors (rs : list row) : ∀ w,
  let w' := foldl (λ acc r, print (render use_colors r) acc) w rs in
  durable w' = durable w ∧ stderr w' = stderr w ∧ answers w' = answers w ∧
  stdout w' = stdout w ++ (render use_colors <$> rs).
Proof.
  induction rs as [|r rs IH]; intros w; simpl.
  - by rewrite app_nil_r.
  - destruct (IH (print (render use_colors r) w)) as (-> & -> & -> & ->).
    simpl. by rewrite <- app_assoc.
Qed.

(** X1.  [profile_list] accepts no argument or [--color] alone.  On anything
    else it prints its usage message on the error stream and exits with
    status 1 without listing a profile. *)
Theorem profile_list_bad_args AIIDADB_PROFILE CURRENT_AIIDADB_PROCESS args w :
  args ≠ [] → args ≠ ["--color"] →
  profile_list AIIDADB_PROFILE CURRENT_AIIDADB_PROCESS args w
  = (Raise (SystemExit 1),
     eprint "You can pass only one further argument, --color, to show the results with colors"
            w).
Proof.
  intros H1 H2. unfold profile_list.
  by rewrite (proj2 (list_args_refused args) (conj H1 H2)).
Qed.

Lemma profile_list_bad_args_witness :
  stdout (profile_list None "verdi" ["--color"; "--color"] two_profiles).2 = [] ∧
  (profile_list None "verdi" ["-c"] two_profiles).1 = Raise (SystemExit 1).
Proof.
  split.
  - by rewrite (profile_list_bad_args None "verdi" ["--color"; "--color"] two_profiles).
  - by rewrite (profile_list_bad_args None "verdi" ["-c"] two_profiles).
Defined.

(** X2.  [profile_list] only reads: whatever its arguments and its outcome,
    the configuration, the databases, the database users and the pending
    answers are as before. *)
Theorem profile_list_read_only AIIDADB_PROFILE CURRENT_AIIDADB_PROCESS args w :
  let r := profile_list AIIDADB_PROFILE CURRENT_AIIDADB_PROCESS args w in
  durable r.2 = durable w ∧ answers r.2 = answers w.
Proof.
  unfold profile_list. destruct (list_args args) as [use_colors|]; [|done].
  simpl.
  match goal with |- context [foldl _ ?w0 ?rs] =>
    destruct (print_rows_frame use_colors rs w0) as (-> & _ & -> & _) end.
  by destruct (current_of _ _ _).
Qed.

(** X3.  The colour of a row: blue (34) for the default profile of the running
    process, also when it is the current one; red (31) for a current
    profile that is not the default; the terminal's default (39)
    otherwise. *)
Theorem list_row_color c d dd n :
  color_id (list_row c d dd n)
  = if bool_decide (Some n = d) then 34
    else if bool_decide (Some n = c) then 31 else 39.
Proof. unfold list_row. by do 3 case_bool_decide. Qed.

Section setdefault.
Variable set_default_profile : string → string → bool → world → outcome unit * world.

(** X4.  [profile_setdefault] hands over to [set_default_profile], with
    [force_rewrite=True] and without printing anything itself, when it is
    given two arguments of which the first is a valid process; in every
    other case it exits with status 1. *)
Theorem profile_setdefault_cases args w :
  (∃ process profile,
     args = [process; profile] ∧ process ∈ valid_processes ∧
     profile_setdefault set_default_profile args w
     = set_default_profile process profile true w) ∨
  ((length args ≠ 2 ∨ nth 0 args "" ∉ valid_processes) ∧
   (profile_setdefault set_default_profile args w).1 = Raise (SystemExit 1)).
Proof.
  unfold profile_setdefault.
  destruct (decide (length args ≠ 2)) as [Hlen|Hlen].
  - right. rewrite bool_decide_eq_true_2 by done. split; [by left|done].
  - rewrite bool_decide_eq_false_2 by done.
    destruct (decide (nth 0 args "" ∈ valid_processes)) as [Hp|Hp].
    + left. destruct args as [|process [|profile [|? ?]]]; simpl in Hlen;
        try (exfalso; apply Hlen; discriminate).
      exists process, profile. split; [done|]. split; [done|].
      by rewrite bool_decide_eq_false_2 by (intros Hn; apply Hn, Hp).
    + right. rewrite bool_decide_eq_true_2 by done. split; [by right|done].
Qed.
End setdefault.

(** *** The loop of [profile_delete] *)

Definition db_of (profile : gmap string string) : string :=
  default "" (profile !! "AIIDADB_NAME").

Definition user_of (profile : gmap string string) : string :=
  default "" (profile !! "AIIDADB_USER").

Definition without (n : string) (confs : config) : config :=
  Config (delete n (profiles confs)) (default_profiles confs).

(** One turn of the loop: the name is unknown, or the user's answers run
    out at one of the two prompts, or the profile is removed and the loop
    goes on. *)
Inductive turn (confs : config) (n : string) (rest : list string) (w : world) : Prop :=
| turn_unknown :
    profiles confs !! n = None →
    delete_profiles confs (n :: rest) w
    = (Raise (ValueError ("Profile " +:+ dq +:+ n +:+ dq +:+ " does not exist")), w) →
    turn confs n rest w
| turn_abort profile w1 :
    profiles confs !! n = Some profile →
    length (answers w) < 2 →
    delete_profiles confs (n :: rest) w = (Raise Abort, w1) →
    persisted w1 = persisted w →
    databases w1 = (if bool_decide (answers w = [true])
                    then databases w ∖ {[db_of profile]} else databases w) →
    dbusers w1 = dbusers w →
    stderr w1 = stderr w →
    turn confs n rest w
| turn_next profile a1 a2 ans w1 :
    profiles confs !! n = Some profile →
    answers w = a1 :: a2 :: ans →
    delete_profiles confs (n :: rest) w = delete_profiles (without n confs) rest w1 →
    persisted w1 = without n confs →
    databases w1 = (if a1 then databases w ∖ {[db_of profile]} else databases w) →
    dbusers w1 = (if a2 then dbusers w ∖ {[user_of profile]} else dbusers w) →
    stderr w1 = stderr w →
    answers w1 = ans →
    turn confs n rest w.

Lemma delete_profiles_turn confs n rest w : turn confs n rest w.
Proof.
  destruct (profiles confs !! n) as [profile|] eqn:Hl.
  2:{ apply turn_unknown; [done|]. simpl. by rewrite Hl. }
  destruct (answers w) as [|a1 [|a2 ans]] eqn:Ha.
  - eapply (turn_abort _ _ _ _ profile); [done|rewrite Ha; simpl; lia| |..].
    + cbn [delete_profiles]. rewrite Hl. unfold confirm. rewrite Ha. reflexivity.
    + done.
    + by rewrite Ha.
    + done.
    + done.
  - destruct a1.
    + eapply (turn_abort _ _ _ _ profile); [done|rewrite Ha; simpl; lia| |..].
      * cbn [delete_profiles]. rewrite Hl. unfold confirm at 1. rewrite Ha. reflexivity.
      * done.
      * by rewrite Ha.
      * done.
      * done.
    + eapply (turn_abort _ _ _ _ profile); [done|rewrite Ha; simpl; lia| |..].
      * cbn [delete_profiles]. rewrite Hl. unfold confirm at 1. rewrite Ha. reflexivity.
      * done.
      * by rewrite Ha.
      * done.
      * done.
  - destruct a1, a2.
    all: eapply (turn_next _ _ _ _ profile _ _ ans); [done|done| |..];
      [cbn [delete_profiles]; rewrite Hl; unfold confirm at 1; rewrite Ha; reflexivity
      |done..].
Qed.

Lemma delete_profiles_shrinks names : ∀ confs w,
  default_profiles confs = default_profiles (persisted w) →
  profiles confs ⊆ profiles (persisted w) →
  let r := delete_profiles confs names w in
  default_profiles (persisted r.2) = default_profiles (persisted w) ∧
  profiles (persisted r.2) ⊆ profiles (persisted w) ∧
  databases r.2 ⊆ databases w ∧
  dbusers r.2 ⊆ dbusers w ∧
  stderr r.2 = stderr w.
Proof.
  induction names as [|n names IH]; intros confs w Hd Hp; [done|].
  destruct (delete_profiles_turn confs n names w)
    as [Hl ->|profile w1 Hl Hlen -> Hc Hdb Hu He
       |profile a1 a2 ans w1 Hl Ha -> Hc Hdb Hu He Hans]; simpl.
  - done.
  - rewrite Hc, Hdb, Hu, He. repeat split; try done.
    case_bool_decide; set_solver.
  - destruct (IH (without n confs) w1) as (H1 & H2 & H3 & H4 & H5).
    { by rewrite Hc. }
    { by rewrite Hc. }
    rewrite H1, H5, Hc, He. simpl. repeat split; try done.
    + etrans; [exact H2|]. rewrite Hc. simpl.
      etrans; [apply delete_subseteq|done].
    + etrans; [exact H3|]. rewrite Hdb. destruct a1; set_solver.
    + etrans; [exact H4|]. rewrite Hu. destruct a2; set_solver.
Qed.

(** X5.  [profile_delete] only removes: whatever its arguments, the answers
    and its outcome, it leaves the default-profile settings as they were,
    adds no profile, no database and no database user, and writes nothing
    on the error stream. *)
Theorem profile_delete_only_removes args w :
  let r := profile_delete args w in
  default_profiles (persisted r.2) = default_profiles (persisted w) ∧
  profiles (persisted r.2) ⊆ profiles (persisted w) ∧
  databases r.2 ⊆ databases w ∧
  dbusers r.2 ⊆ dbusers w ∧
  stderr r.2 = stderr w.
Proof. by apply delete_profiles_shrinks. Qed.

Lemma delete_profiles_registered names : ∀ w,
  NoDup names →
  (∀ n, n ∈ names → is_Some (profiles (persisted w) !! n)) →
  2 * length names ≤ length (answers w) →
  let r := delete_profiles (persisted w) names w in
  r.1 = Return () ∧
  (∀ n, profiles (persisted r.2) !! n
        = if decide (n ∈ names) then None else profiles (persisted w) !! n) ∧
  answers r.2 = drop (2 * length names) (answers w).
Proof.
  induction names as [|n names IH]; intros w Hnd Hreg Hans.
  - simpl. by repeat split.
  - apply NoDup_cons in Hnd as [Hn Hnd].
    destruct (delete_profiles_turn (persisted w) n names w)
      as [Hl _|profile w1 _ Hlen _ _ _ _ _
         |profile a1 a2 ans w1 Hl Ha -> Hc _ _ _ Hans1].
    + destruct (Hreg n) as [? Hsome]; [left|]. by rewrite Hl in Hsome.
    + simpl in Hans. lia.
    + rewrite <- Hc. destruct (IH w1) as (H1 & H2 & H3).
      * done.
      * intros m Hm. rewrite Hc. simpl. rewrite lookup_delete_ne.
        -- apply Hreg. by right.
        -- intros ->. done.
      * rewrite Hans1. rewrite Ha in Hans. simpl in *. lia.
      * simpl. split; [done|]. split.
        -- intros m. rewrite H2, Hc. simpl.
           destruct (decide (m = n)) as [->|Hne].
           ++ rewrite decide_False by done. rewrite decide_True by left.
              apply lookup_delete_eq.
           ++ rewrite lookup_delete_ne by done.
              destruct (decide (m ∈ names)), (decide (m ∈ n :: names)); try done; set_solver.
        -- rewrite H3, Hans1, Ha.
           by replace (S (length names + S (length names + 0)))
             with (S (S (2 * length names))) by lia.
Qed.

(** X6.  Given distinct names that are all registered, and two answers for
    each, [profile_delete] returns; afterwards exactly the named profiles
    are gone from the registry, and two answers per name are used up. *)
Theorem profile_delete_registered names w :
  NoDup names →
  (∀ n, n ∈ names → is_Some (profiles (persisted w) !! n)) →
  2 * length names ≤ length (answers w) →
  let r := profile_delete names w in
  r.1 = Return () ∧
  (∀ n, profiles (persisted r.2) !! n
        = if decide (n ∈ names) then None else profiles (persisted w) !! n) ∧
  answers r.2 = drop (2 * length names) (answers w).
Proof. apply delete_profiles_registered. Qed.

Lemma profile_delete_registered_witness :
  (profile_delete ["test"] two_profiles).1 = Return () ∧
  profiles (persisted (profile_delete ["test"] two_profiles).2) !! "test" = None ∧
  is_Some (profiles (persisted (profile_delete ["test"] two_profiles).2) !! "main").
Proof.
  destruct (profile_delete_registered ["test"] two_profiles) as (H1 & H2 & _).
  - apply NoDup_singleton.
  - intros n ->%list_elem_of_singleton. compute_done.
  - simpl. lia.
  - split; [done|]. rewrite !H2. split; [done|compute_done].
Defined.

Lemma delete_profiles_all_no names : ∀ confs w,
  Forall (λ a, a = false) (answers w) →
  let r := delete_profiles confs names w in
  databases r.2 = databases w ∧ dbusers r.2 = dbusers w.
Proof.
  induction names as [|n names IH]; intros confs w Hno; [done|].
  destruct (delete_profiles_turn confs n names w)
    as [Hl ->|profile w1 Hl Hlen -> Hc Hdb Hu He
       |profile a1 a2 ans w1 Hl Ha -> Hc Hdb Hu He Hans]; simpl.
  - done.
  - rewrite Hdb, Hu. split; [|done].
    rewrite bool_decide_eq_false_2; [done|].
    intros E. rewrite E in Hno. by apply Forall_cons in Hno as [? _].
  - rewrite Ha in Hno.
    apply Forall_cons in Hno as [-> Hno]. apply Forall_cons in Hno as [-> Hno].
    destruct (IH (without n confs) w1) as [H1 H2]; [by rewrite Hans|].
    by rewrite H1, H2, Hdb, Hu.
Qed.

(** X7.  When the user answers no to every question, [profile_delete] drops
    no database and no database user, whatever its arguments. *)
Theorem profile_delete_all_no args w :
  Forall (λ a, a = false) (answers w) →
  let r := profile_delete args w in
  databases r.2 = databases w ∧ dbusers r.2 = dbusers w.
Proof. apply delete_profiles_all_no. Qed.

Lemma profile_delete_all_no_witness :
  let r := profile_delete ["main"; "test"] two_profiles_refusing in
  Forall (λ a, a = false) (answers two_profiles_refusing) ∧
  r.1 = Return () ∧
  get_profiles_list r.2 = [] ∧
  answers r.2 = [] ∧
  databases r.2 = databases two_profiles_refusing ∧
  dbusers r.2 = dbusers two_profiles_refusing.
Proof.
  intros r.
  assert (Forall (λ a, a = false) (answers two_profiles_refusing)) as Hno
    by (repeat constructor).
  split; [done|]. split; [by vm_compute|]. split; [by vm_compute|].
  split; [by vm_compute|].
  exact (profile_delete_all_no ["main"; "test"] two_profiles_refusing Hno).
Defined.

Lemma elem_of_get_profiles_list n w :
  n ∈ get_profiles_list w ↔ is_Some (profiles (persisted w) !! n).
Proof.
  unfold get_profiles_list. rewrite list_elem_of_fmap. split.
  - intros ([k v] & -> & H%elem_of_map_to_list). by exists v.
  - intros [v Hv]. exists (n, v). split; [done|]. by apply elem_of_map_to_list.
Qed.

(** X8.  Deleting one registered profile, with both questions answered: the
    command returns, the profile is off the registry, its database is
    dropped exactly when the first answer is yes and its database user
    exactly when the second is. *)
Theorem profile_delete_one p profile a1 a2 ans w :
  profiles (persisted w) !! p = Some profile →
  answers w = a1 :: a2 :: ans →
  let r := profile_delete [p] w in
  r.1 = Return () ∧
  persisted r.2 = Config (delete p (profiles (persisted w))) (default_profiles (persisted w)) ∧
  databases r.2
  = (if a1 then databases w ∖ {[default "" (profile !! "AIIDADB_NAME")]} else databases w) ∧
  dbusers r.2
  = (if a2 then dbusers w ∖ {[default "" (profile !! "AIIDADB_USER")]} else dbusers w) ∧
  answers r.2 = ans.
Proof.
  intros Hl Ha. unfold profile_delete.
  destruct (delete_profiles_turn (persisted w) p [] w)
    as [Hl' _|profile' w1 _ Hlen _ _ _ _ _
       |profile' a1' a2' ans' w1 Hl' Ha' -> Hc Hdb Hu _ Hans].
  - by rewrite Hl in Hl'.
  - rewrite Ha in Hlen. simpl in Hlen. lia.
  - rewrite Hl in Hl'. injection Hl' as <-.
    rewrite Ha in Ha'. injection Ha' as <- <- <-. simpl.
    by rewrite Hc, Hdb, Hu, Hans.
Qed.

Lemma profile_delete_one_witness :
  elements (databases (profile_delete ["main"] two_profiles).2) = ["aiida_test"] ∧
  elements (dbusers (profile_delete ["main"] two_profiles).2) = ["aiida"].
Proof.
  destruct (profile_delete_one "main"
              {["AIIDADB_NAME" := "aiida_main"; "AIIDADB_USER" := "aiida"]}
              true false [] two_profiles) as (_ & _ & -> & -> & _).
  - by vm_compute.
  - done.
  - split; by vm_compute.
Defined.

(** X9.  Naming a registered profile twice: it is deleted at its first mention
    and [ValueError] is raised at the second. *)
Theorem profile_delete_named_twice p rest profile a1 a2 ans w :
  profiles (persisted w) !! p = Some profile →
  answers w = a1 :: a2 :: ans →
  let r := profile_delete (p :: p :: rest) w in
  r.1 = Raise (ValueError ("Profile " +:+ dq +:+ p +:+ dq +:+ " does not exist")) ∧
  profiles (persisted r.2) !! p = None.
Proof.
  intros Hl Ha. unfold profile_delete.
  destruct (delete_profiles_turn (persisted w) p (p :: rest) w)
    as [Hl' _|profile' w1 _ Hlen _ _ _ _ _
       |profile' a1' a2' ans' w1 _ _ -> Hc _ _ _ _].
  - by rewrite Hl in Hl'.
  - rewrite Ha in Hlen. simpl in Hlen. lia.
  - destruct (delete_profiles_turn (without p (persisted w)) p rest w1)
      as [_ ->|profile'' w2 Hl'' _ _ _ _ _ _
         |profile'' a1'' a2'' ans'' w2 Hl'' _ _ _ _ _ _ _].
    + simpl. split; [done|]. rewrite Hc. apply lookup_delete_eq.
    + simpl in Hl''. by rewrite lookup_delete_eq in Hl''.
    + simpl in Hl''. by rewrite lookup_delete_eq in Hl''.
Qed.

Lemma profile_delete_named_twice_witness :
  (profile_delete ["test"; "test"] two_profiles).1
  = Raise (ValueError ("Profile " +:+ dq +:+ "test" +:+ dq +:+ " does not exist")).
Proof.
  destruct (profile_delete_named_twice "test" []
              {["AIIDADB_NAME" := "aiida_test"; "AIIDADB_USER" := "aiida"]}
              true false [] two_profiles) as [H _].
  - by vm_compute.
  - done.
  - exact H.
Defined.

(** X10.  When the answers run out at one of the two prompts of a registered
    profile, [click.confirm] aborts the command: the registry and the
    database users are as before, the profile is still registered. *)
Theorem profile_delete_aborted p rest profile w :
  profiles (persisted w) !! p = Some profile →
  length (answers w) < 2 →
  let r := profile_delete (p :: rest) w in
  r.1 = Raise Abort ∧ persisted r.2 = persisted w ∧ dbusers r.2 = dbusers w.
Proof.
  intros Hl Hlen. unfold profile_delete.
  destruct (delete_profiles_turn (persisted w) p rest w)
    as [Hl' _|profile' w1 _ _ -> Hc _ Hu _
       |profile' a1' a2' ans' w1 _ Ha' _ _ _ _ _ _].
  - by rewrite Hl in Hl'.
  - by simpl.
  - rewrite Ha' in Hlen. simpl in Hlen. lia.
Qed.

Lemma profile_delete_aborted_witness :
  (profile_delete ["main"] no_default).1 = Raise Abort ∧
  get_profiles_list (profile_delete ["main"] no_default).2 = ["main"].
Proof.
  destruct (profile_delete_aborted "main" [] {["AIIDADB_NAME" := "aiida_main"]} no_default)
    as (H1 & H2 & _).
  - by vm_compute.
  - simpl. lia.
  - split; [done|]. unfold get_profiles_list. rewrite H2. by vm_compute.
Defined.

(** X11.  [profile_delete] does not touch the default-profile settings: after
    the default profile of a process has been deleted it is still the
    configured default, it is not in the registry any more, and
    [profile_list] run without a selected profile marks no profile as
    default and none as current. *)
Theorem profile_delete_dangling_default process p profile a1 a2 ans w :
  get_default_profile process w = Some p →
  profiles (persisted w) !! p = Some profile →
  answers w = a1 :: a2 :: ans →
  let w' := (profile_delete [p] w).2 in
  get_default_profile process w' = Some p ∧
  ¬ (p ∈ get_profiles_list w') ∧
  length (filter marked_default (list_rows None process w')) = 0 ∧
  length (filter marked_current (list_rows None process w')) = 0.
Proof.
  intros Hd Hl Ha. unfold profile_delete.
  destruct (delete_profiles_turn (persisted w) p [] w)
    as [Hl' _|profile' w1 _ Hlen _ _ _ _ _
       |profile' a1' a2' ans' w1 _ _ -> Hc _ _ _ _].
  - by rewrite Hl in Hl'.
  - rewrite Ha in Hlen. simpl in Hlen. lia.
  - simpl.
    assert (get_default_profile process w1 = Some p) as Hd1.
    { unfold get_default_profile in *. by rewrite Hc. }
    assert (p ∉ get_profiles_list w1) as Hout.
    { rewrite elem_of_get_profiles_list, Hc. simpl.
      rewrite lookup_delete_eq. by intros [? [=]]. }
    split; [done|]. split; [done|].
    unfold list_rows, current_of. rewrite Hd1.
    rewrite (ProfileSpec.count_marked marked_default _ _ _ (Some p));
      [|apply ProfileSpec.marked_default_row|apply ProfileSpec.get_profiles_list_NoDup].
    rewrite (ProfileSpec.count_marked marked_current _ _ _ (Some p));
      [|apply ProfileSpec.marked_current_row|apply ProfileSpec.get_profiles_list_NoDup].
    by rewrite bool_decide_eq_false_2.
Qed.

Lemma profile_delete_dangling_default_witness :
  let w' := (profile_delete ["main"] two_profiles).2 in
  get_default_profile "verdi" w' = Some "main" ∧
  stdout (profile_list None "verdi" [] (World (persisted w') ∅ ∅ [] [] [])).2 = ["* test "].
Proof.
  intros w'.
  destruct (profile_delete_dangling_default "verdi" "main"
              {["AIIDADB_NAME" := "aiida_main"; "AIIDADB_USER" := "aiida"]}
              true false [] two_profiles) as (H & _).
  - by vm_compute.
  - by vm_compute.
  - done.
  - split; [exact H|]. by vm_compute.
Defined.

Example complete_processes :
  complete_processes_profiles 0 [] two_profiles
  = "verdi" +:+ String "010"%char "" +:+ "daemon" ∧
  complete_processes_profiles 2 ["verdi"; "main"] two_profiles = "".
Proof. split; reflexivity. Qed.

End ProfileFacts.

(** ** The Django user collection: further properties *)

Module UsersFacts.
Import Users Samples.

Lemma filter_unique_key {A B} (f : A → B) (P : A → Prop) `{!∀ x, Decision (P x)}
    (b : B) (l : list A) :
  NoDup (f <$> l) → (∀ x, P x → f x = b) → length (filter P l) ≤ 1.
Proof.
  intros Hnd HP. induction l as [|x l IH]; [simpl; lia|].
  rewrite fmap_cons in Hnd. apply NoDup_cons in Hnd as [Hx Hnd].
  rewrite filter_cons. destruct (decide (P x)) as [Hpx|Hpx]; [|by apply IH].
  assert (filter P l = []) as ->; [|simpl; lia].
  destruct (filter P l) as [|y ys] eqn:E; [done|]. exfalso.
  assert (y ∈ filter P l) as [Hpy Hy]%list_elem_of_filter by (rewrite E; left).
  apply Hx. rewrite (HP x Hpx), <- (HP y Hpy). by apply list_elem_of_fmap_2.
Qed.

Section users.
Context {Backend : Type}.
Variable from_dbmodel : Backend → DbUser → DjangoUser Backend.
Implicit Types (self : Backend) (table : list DbUser).

Local Abbreviation find := (find from_dbmodel).

(** X12.  On a table whose primary keys are distinct, [find] with an id filter
    returns at most one user, with or without an email filter. *)
Theorem find_by_id_at_most_one self e i table :
  NoDup (id <$> table) → length (find self e (Some i) table).1 ≤ 1.
Proof.
  intros Hnd. destruct e as [e|]; simpl; rewrite length_fmap.
  - apply (filter_unique_key id _ (Some i)); [done|].
    intros row. rewrite andb_True, !bool_decide_spec. by intros [? _].
  - apply (filter_unique_key id _ (Some i)); [done|].
    intros row. by rewrite bool_decide_spec.
Qed.

(** X13.  [find] with both filters finds what [find] with the email filter
    finds among the rows with that id, and what [find] with the id filter
    finds among the rows with that email. *)
Theorem find_both_composes self e i table :
  (find self (Some e) (Some i) table).1
  = (find self (Some e) None (filter (λ row, id row = Some i) table)).1 ∧
  (find self (Some e) (Some i) table).1
  = (find self None (Some i) (filter (λ row, email row = e) table)).1.
Proof.
  simpl. split; f_equal; rewrite list_filter_filter; apply list_filter_iff; intros row;
    rewrite andb_True, !bool_decide_spec; tauto.
Qed.
End users.

Lemma find_by_id_at_most_one_witness :
  NoDup (id <$> three_users) ∧
  length (find mkDjangoUser () (Some "ada@aiida.net") (Some 3%Z) three_users).1 ≤ 1.
Proof.
  assert (NoDup (id <$> three_users)) as Hnd by compute_done.
  split; [done|]. by apply find_by_id_at_most_one.
Defined.

End UsersFacts.

(** ** The import dispatcher: further properties *)

Module DispatchFacts.
Import Dispatch.

Section dispatch.
Context {Group Kwargs Summary Store : Type}.
Variables BACKEND_DJANGO BACKEND_SQLA : string.

Local Abbreviation import_data := (@import_data Group Kwargs Summary Store
                                     BACKEND_DJANGO BACKEND_SQLA).

(** X14.  [import_data] runs one importer at most.  On the SQLAlchemy backend
    nothing depends on [import_data_dj]; on every other backend nothing
    depends on [import_data_sqla]; and on a backend that is neither,
    nothing depends on either.  Exactly one record goes to the logger when
    an importer runs, also when that importer raises, and none
    otherwise. *)
Theorem import_data_runs_one_importer sqla dj backend in_path group kwargs db :
  (backend = BACKEND_SQLA →
   ∀ dj', import_data sqla dj backend in_path group kwargs db
          = import_data sqla dj' backend in_path group kwargs db) ∧
  (backend ≠ BACKEND_SQLA →
   ∀ sqla', import_data sqla dj backend in_path group kwargs db
            = import_data sqla' dj backend in_path group kwargs db) ∧
  length (logged (import_data sqla dj backend in_path group kwargs db).2)
  = (if bool_decide (backend = BACKEND_SQLA ∨ backend = BACKEND_DJANGO) then 1 else 0).
Proof.
  unfold Dispatch.import_data. repeat split.
  - intros -> dj'. by rewrite !bool_decide_eq_true_2 by done.
  - intros Hne sqla'. by rewrite !(bool_decide_eq_false_2 (backend = BACKEND_SQLA)) by done.
  - destruct (decide (backend = BACKEND_SQLA)) as [Hs|Hs].
    + rewrite !bool_decide_eq_true_2 by auto.
      by destruct (sqla in_path group kwargs db).
    + rewrite (bool_decide_eq_false_2 (backend = BACKEND_SQLA)) by done.
      destruct (decide (backend = BACKEND_DJANGO)) as [Hd|Hd].
      * rewrite !bool_decide_eq_true_2 by auto.
        by destruct (dj in_path group kwargs db).
      * rewrite !bool_decide_eq_false_2; [done|tauto|done].
Qed.
End dispatch.

Lemma import_data_runs_one_importer_witness :
  import_data "django" "sqlalchemy" Samples.corrupt_archive Samples.corrupt_archive
    "django" "export.aiida" None () ()
  = import_data "django" "sqlalchemy" (λ _ _ _ db, (Return (), db)) Samples.corrupt_archive
      "django" "export.aiida" None () ().
Proof.
  destruct (import_data_runs_one_importer "django" "sqlalchemy"
              Samples.corrupt_archive Samples.corrupt_archive
              "django" "export.aiida" None () ()) as (_ & H & _).
  by apply H.
Defined.

End DispatchFacts.

(** ** The callbacks of the interactive-option tests *)

Module InteractiveFacts.
Import Interactive.

Section callbacks.
Context {Float : Type}.
Variable float_lt_zero : Float → bool.
Variable float_str : Float → string.

Local Abbreviation validate_positive_number :=
  (validate_positive_number float_lt_zero float_str).
Local Abbreviation validate_positive_number_with_echo :=
  (validate_positive_number_with_echo float_lt_zero float_str).

(** X15.  [validate_positive_number] accepts the numbers that are not below
    zero, and nothing else: an integer from 0 on (0 itself included), a
    boolean, a float for which [value < 0] is false.  [None] and strings
    are refused. *)
Theorem validate_positive_number_accepts (value : pyvalue Float) :
  validate_positive_number value = Accepted ↔
  (∃ z, value = PyInt z ∧ (0 ≤ z)%Z) ∨
  (∃ b, value = PyBool b) ∨
  (∃ f, value = PyFloat f ∧ float_lt_zero f = false).
Proof.
  unfold Interactive.validate_positive_number.
  destruct value as [|b|z|f|s]; simpl.
  - split; [done|]. by intros [(? & [=] & _)|[(? & [=])|(? & [=] & _)]].
  - split; [|done]. intros _. right. left. by exists b.
  - case_bool_decide as Hz.
    + split; [done|]. intros [(? & [= <-] & ?)|[(? & [=])|(? & [=] & _)]]. lia.
    + split; [|done]. intros _. left. exists z. split; [done|lia].
  - destruct (float_lt_zero f) eqn:E.
    + split; [done|]. by intros [(? & [=] & _)|[(? & [=])|(? & [= <-] & ?)]]; congruence.
    + split; [|done]. intros _. right. right. by exists f.
  - split; [done|]. by intros [(? & [=] & _)|[(? & [=])|(? & [=] & _)]].
Qed.

(** X16.  [validate_positive_number_with_echo] decides as
    [validate_positive_number] does, and echoes one line naming the value
    before it decides: a value it refuses is echoed as well. *)
Theorem validate_with_echo_agrees (value : pyvalue Float) out :
  validate_positive_number_with_echo value out
  = (validate_positive_number value,
     out ++ ["Validating " +:+ format_value float_str value]).
Proof.
  unfold Interactive.validate_positive_number_with_echo,
    Interactive.validate_positive_number.
  by destruct (negb (is_int_or_float value) || lt_zero float_lt_zero value).
Qed.
End callbacks.

Example validate_some_numbers :
  let v := validate_positive_number (λ _ : unit, false) (λ _, "nan") in
  v (PyInt 0) = Accepted ∧
  v (PyInt (-1)) = BadParameter "-1 is not a valid positive number" ∧
  v (PyStr "string") = BadParameter "string is not a valid positive number" ∧
  v (PyBool true) = Accepted.
Proof. by vm_compute. Qed.

End InteractiveFacts.

(** ** The extras modes: further properties *)

Module ExtrasFacts.
Import Extras.

Lemma merge_extras_lookup p (old new : gmap string value) k :
  merge_extras p old new !! k = merge_key p (old !! k) (new !! k).
Proof.
  unfold merge_extras. rewrite lookup_merge. by destruct (old !! k), (new !! k).
Qed.

(** Solves the equation of two merged mappings key by key. *)
Ltac by_key :=
  apply map_eq; intros k;
  rewrite merge_extras_lookup, lookup_fmap, ?lookup_union;
  unfold merge_key, extras_action; simpl;
  destruct (_ !! k) as [a|], (_ !! k) as [b|]; simpl; try done;
  case_bool_decide; simpl; congruence.

(** X17.  The four modes without deletion and without questions.  'knl' leaves
    the extras of the existing node as they are; 'ncu' replaces them by
    the extras of the archive; 'kcu' adds the extras of the archive to
    them, the archive winning on a common key; 'kcl' does the same with
    the existing node winning. *)
Theorem merge_extras_named_modes (old new : gmap string value) :
  merge_extras_code "knl" old new = Return (Settled <$> old) ∧
  merge_extras_code "ncu" old new = Return (Settled <$> new) ∧
  merge_extras_code "kcu" old new = Return (Settled <$> new ∪ old) ∧
  merge_extras_code "kcl" old new = Return (Settled <$> old ∪ new).
Proof.
  unfold merge_extras_code. simpl. repeat split; f_equal.
  - by_key.
  - by_key.
  - by_key.
  - by_key.
Qed.

Lemma merge_key_settled p old new s :
  on_collision p ≠ Ask → merge_key p old new = Some s → ∃ v, s = Settled v.
Proof.
  intros Hask. unfold merge_key, extras_action.
  destruct old as [a|], new as [b|]; simpl; try done.
  - case_bool_decide; simpl; [intros [= <-]; eauto|].
    destruct (on_collision p); simpl; try done; intros [= <-]; eauto.
  - destruct (on_old_only p); simpl; [intros [= <-]; eauto|done].
  - destruct (on_new_only p); simpl; [intros [= <-]; eauto|done].
Qed.

(** X18.  Only the collision mode 'a' asks: under any other policy the merged
    extras are the same whatever the user would answer. *)
Theorem merge_extras_asks_only_under_a p (old new : gmap string value) confirm1 confirm2 :
  on_collision p ≠ Ask →
  settle confirm1 (merge_extras p old new) = settle confirm2 (merge_extras p old new).
Proof.
  intros Hask. apply map_eq. intros k. unfold settle.
  rewrite !map_lookup_imap, merge_extras_lookup.
  destruct (merge_key p (old !! k) (new !! k)) as [s|] eqn:E; [|done].
  by destruct (merge_key_settled _ _ _ _ Hask E) as [v ->].
Qed.

Lemma merge_extras_asks_only_under_a_witness :
  settle (λ _ _ _, true)
    (merge_extras (Policy Keep Create Remove) {["a" := VInt 1]} {["a" := VInt 2]})
  = settle (λ _ _ _, false)
      (merge_extras (Policy Keep Create Remove) {["a" := VInt 1]} {["a" := VInt 2]}).
Proof. by apply merge_extras_asks_only_under_a. Defined.

End ExtrasFacts.

(** ** Comments: further properties *)

Module CommentsFacts.
Import Comments.

Lemma merge_comment_twice mode existing incoming :
  merge_comment mode (merge_comment mode existing incoming) incoming
  = merge_comment mode existing incoming.
Proof.
  destruct mode; simpl; [|done].
  destruct (decide (mtime existing < mtime incoming)%Z) as [H|H].
  - rewrite (bool_decide_eq_true_2 _ H). by rewrite bool_decide_eq_false_2 by lia.
  - rewrite (bool_decide_eq_false_2 _ H). by rewrite (bool_decide_eq_false_2 _ H).
Qed.

Lemma merge_comment_keeps_uuid mode existing incoming :
  c_uuid existing = c_uuid incoming →
  c_uuid (merge_comment mode existing incoming) = c_uuid incoming.
Proof. intros E. destruct mode; simpl; [by case_bool_decide|done]. Qed.

(** X19.  Under 'newest' the comment that is kept carries the later of the two
    modification times; importing a comment a second time, in either
    mode, changes nothing. *)
Theorem import_comment_newest_idempotent mode dest existing incoming :
  mtime (merge_comment Newest existing incoming)
  = Z.max (mtime existing) (mtime incoming) ∧
  import_comment mode (import_comment mode dest incoming) incoming
  = import_comment mode dest incoming.
Proof.
  split.
  - simpl. case_bool_decide; lia.
  - induction dest as [|c dest IH]; simpl.
    + rewrite bool_decide_eq_true_2 by done.
      destruct mode; simpl; [|done]. by rewrite bool_decide_eq_false_2 by lia.
    + destruct (decide (c_uuid c = c_uuid incoming)) as [E|Hne].
      * rewrite bool_decide_eq_true_2 by done. simpl.
        rewrite bool_decide_eq_true_2 by by apply merge_comment_keeps_uuid.
        by rewrite merge_comment_twice.
      * rewrite bool_decide_eq_false_2 by done. simpl.
        rewrite bool_decide_eq_false_2 by done. by rewrite IH.
Qed.

End CommentsFacts.

(** ** The log collection: further properties *)

Module LogsFacts.
Import Logs Samples.

(** X20.  [delete] of an id that is not in the table raises [NotExistent] and
    leaves the table alone; on a table with distinct primary keys,
    [delete] of an id that is there removes the one row that carries it
    and keeps every other row. *)
Theorem delete_one_row log_id (logs : list log) :
  (¬ (log_id ∈ pk <$> logs) →
   delete log_id logs = (Raise (NotExistent "Log not found"), logs)) ∧
  (NoDup (pk <$> logs) → log_id ∈ pk <$> logs →
   (delete log_id logs).1 = Return () ∧
   S (length (delete log_id logs).2) = length logs ∧
   ¬ (log_id ∈ pk <$> (delete log_id logs).2) ∧
   ∀ l, l ∈ logs → pk l ≠ log_id → l ∈ (delete log_id logs).2).
Proof.
  split.
  - intros Hout. unfold delete. by rewrite bool_decide_eq_false_2.
  - intros Hnd Hin. rewrite LogsSpec.delete_present by done. simpl.
    repeat split.
    + revert Hnd Hin.
      assert (∀ l : list log, log_id ∉ pk <$> l → filter (λ x, pk x ≠ log_id) l = l) as Hall.
      { clear. intros l Hl. induction l as [|x l IH]; [done|].
        rewrite fmap_cons in Hl. apply not_elem_of_cons in Hl as [Hx Hl].
        rewrite filter_cons_True by done. by rewrite IH. }
      induction logs as [|x logs IH]; intros Hnd Hin.
      * apply elem_of_nil in Hin as [].
      * rewrite fmap_cons in Hnd. apply NoDup_cons in Hnd as [Hx Hnd].
        rewrite fmap_cons in Hin. apply elem_of_cons in Hin as [->|Hin].
        -- rewrite filter_cons_False by (intros H; by apply H).
           by rewrite Hall.
        -- rewrite filter_cons_True.
           ++ simpl. f_equal. by apply IH.
           ++ intros E. apply Hx. by rewrite E.
    + intros (l & E & [Hne _]%list_elem_of_filter)%list_elem_of_fmap. done.
    + intros l Hl Hne. by apply list_elem_of_filter.
Qed.

Lemma delete_one_row_witness :
  pk <$> (delete 2 three_logs).2 = [1; 5]%Z ∧
  (delete 3 three_logs).1 = Raise (NotExistent "Log not found").
Proof.
  destruct (delete_one_row 3 three_logs) as [Hout _].
  destruct (delete_one_row 2 three_logs) as [_ Hin].
  split.
  - destruct Hin as (_ & _ & _ & _); [compute_done|compute_done|]. by vm_compute.
  - rewrite Hout; [done|compute_done].
Defined.

Section delete_many.
Context {Cond : Type}.
Variable matches : gmap string Cond → log → bool.

Lemma delete_many_nonempty d (logs : list log) :
  d ≠ ∅ → NoDup (pk <$> logs) →
  delete_many matches (FDict d) logs
  = (Return (pk <$> filter (λ l, matches d l) logs), filter (λ l, ¬ matches d l) logs).
Proof.
  intros Hd Hnd. unfold delete_many.
  rewrite bool_decide_eq_false_2 by done.
  rewrite LogsSpec.delete_each_present.
  - f_equal. apply LogsSpec.filter_ext_in. intros l Hl. split.
    + intros Hout Hm. apply Hout. apply list_elem_of_fmap_2.
      by apply list_elem_of_filter.
    + intros Hm (l' & E & [Hm' Hl']%list_elem_of_filter)%list_elem_of_fmap.
      apply Hm. by rewrite (LogsSpec.pk_inj_on logs l l' Hnd Hl Hl' E).
  - eapply sublist_NoDup; [done|]. apply fmap_sublist, sublist_filter.
  - intros i (l & -> & [_ Hl]%list_elem_of_filter)%list_elem_of_fmap.
    by apply list_elem_of_fmap_2.
Qed.

(** X21.  [delete_many] refuses an argument that is not a dictionary with
    [TypeError] before it touches a row.  With a proper filter, on a table
    with distinct primary keys, a second call with the same filter finds
    nothing left to delete: it returns the empty list and changes
    nothing. *)
Theorem delete_many_twice d (logs : list log) :
  delete_many matches FOther logs
  = (Raise (TypeError "filters must be a dictionary"), logs) ∧
  (d ≠ ∅ → NoDup (pk <$> logs) →
   let after := (delete_many matches (FDict d) logs).2 in
   delete_many matches (FDict d) after = (Return [], after)).
Proof.
  split; [done|]. intros Hd Hnd after. subst after.
  rewrite (delete_many_nonempty d logs) by done. cbn [snd].
  rewrite delete_many_nonempty; [|done|].
  - rewrite !list_filter_filter.
    assert (∀ P : log → Prop, ∀ HP : (∀ x, Decision (P x)), ∀ l : list log,
              (∀ x, ¬ P x) → filter P l = []) as Hnone.
    { intros P HP l HnP. induction l as [|x l IH]; [done|].
      by rewrite filter_cons_False. }
    rewrite (Hnone (λ l, matches d l ∧ ¬ matches d l)) by (intros l [? ?]; done).
    f_equal. apply list_filter_iff. tauto.
  - eapply sublist_NoDup; [done|]. apply fmap_sublist, sublist_filter.
Qed.
End delete_many.

Lemma delete_many_twice_witness :
  let after := (delete_many level_is (FDict {["levelname" := "ERROR"]}) three_logs).2 in
  delete_many level_is (FDict {["levelname" := "ERROR"]}) after = (Return [], after).
Proof.
  destruct (delete_many_twice level_is {["levelname" := "ERROR"]} three_logs) as [_ H].
  apply H; [apply insert_non_empty|compute_done].
Defined.

End LogsFacts.
